(** * nano-retry: retry with exponential backoff, timeouts and cancellation

    A shallow embedding of [retry.ts] (calculateDelay, sleep, withTimeout,
    retry, retryable) and the properties of its retry loop.

    Modelling conventions.
    - JavaScript numbers are exact rationals ([Q]); binary64 rounding, NaN and
      the infinities are outside the model.  [Date.now()] readings, durations
      and rounded delays are integers ([Z], milliseconds).
    - The code is asynchronous.  Every awaited promise is described by when
      and how it settles ([Settled]); synchronous code takes no time.  A
      promise that never settles makes the awaiting function [Pending].
    - The caller's operation and callbacks are arbitrary state machines over
      a caller-owned state [U]; they see the current time.
    - An [AbortSignal] is described by the instant at which its controller
      fires.  When two events fall on the same millisecond the abort event
      comes first, so that a signal that reads aborted has been seen by every
      listener registered before.
    - Timers belong to the host ([Timers]): they fire when the host says,
      not necessarily after the delay asked for.
    - The world carries a ghost [trace] of the interactions of one call. *)

From Stdlib Require Import ZArith QArith Qround Qminmax Qpower Lqa.
From Stdlib Require Import List String Bool Lia.
Import ListNotations.
Open Scope Z_scope.

(** ** Numbers *)

Definition Qltb (x y : Q) : bool := negb (Qle_bool y x).

Definition Number_isInteger (x : Q) : bool :=
  Qeq_bool (inject_Z (Qfloor x)) x.

Definition Math_pow (base : Q) (exponent : Z) : Q := Qpower base exponent.

Definition Math_min (x y : Q) : Q := Qmin x y.

(** [Math.round]: nearest integer, halves towards plus infinity. *)
Definition Math_round (x : Q) : Z := Qfloor (x + (1 # 2))%Q.

(** ** calculateDelay

    [rnd] is the value returned by [Math.random()], read only when [jitter]
    is on.  The arithmetic is exact: it gives the delay of the program where
    no operation of the program rounds or overflows (as with the integral
    settings of the test suite), and may differ from it otherwise. *)
Definition calculateDelay
    (attempt : Z) (minTimeout maxTimeout factor : Q) (jitter : bool)
    (rnd : Q) : Z :=
  let delay := (minTimeout * Math_pow factor (attempt - 1))%Q in
  let delay := Math_min delay maxTimeout in
  let delay :=
    if jitter then
      let jitterRange := (delay * (25 # 100))%Q in
      (delay - jitterRange + rnd * jitterRange * 2)%Q
    else delay in
  Math_round delay.

(** ** Errors *)

(** The message templates of the source, kept structured. *)
Inductive Message : Type :=
| Text (s : string)
| AttemptTimedOutAfter (ms : Q)         (* Attempt timed out after ${ms}ms *)
| TotalTimeoutExceeded (ms : Q)         (* Total timeout of ${ms}ms exceeded *)
| TotalTimeoutWouldBeExceeded (ms : Q). (* Total timeout of ${ms}ms would be exceeded *)

(** Values that can be thrown: the library's classes, the built-in
    [TypeError], any caller value, and [undefined]. *)
Inductive Thrown (E : Type) : Type :=
| TypeError (message : string)
| AbortError (message : string)
| TimeoutError (message : Message)
| Other (e : E)
| Undefined.
Arguments TypeError {E} message.
Arguments AbortError {E} message.
Arguments TimeoutError {E} message.
Arguments Other {E} e.
Arguments Undefined {E}.

(** [new AbortError()] with the default message. *)
Definition new_AbortError {E : Type} : Thrown E :=
  AbortError "Retry operation was aborted".

(** [error instanceof AbortError] *)
Definition instanceof_AbortError {E : Type} (error : Thrown E) : bool :=
  match error with AbortError _ => true | _ => false end.

(** [error instanceof TimeoutError] *)
Definition instanceof_TimeoutError {E : Type} (error : Thrown E) : bool :=
  match error with TimeoutError _ => true | _ => false end.

(** [error instanceof TypeError] *)
Definition instanceof_TypeError {E : Type} (error : Thrown E) : bool :=
  match error with TypeError _ => true | _ => false end.

(** ** Defaults *)

Module DEFAULTS.
Definition retries : Q := 3.
Definition minTimeout : Q := 1000.
Definition maxTimeout : Q := 30000.
Definition factor : Q := 2.
Definition jitter : bool := true.
End DEFAULTS.

(** ** Cancellation *)

Inductive AbortSignal : Type :=
| NeverAborted
| AbortedAt (t : Z).

(** [signal?.aborted] read at time [t]. *)
Definition aborted (signal : option AbortSignal) (t : Z) : bool :=
  match signal with
  | Some (AbortedAt a) => a <=? t
  | _ => false
  end.

(** The instant of the abort event, if the signal ever fires. *)
Definition abortTime (signal : option AbortSignal) : option Z :=
  match signal with
  | Some (AbortedAt a) => Some a
  | _ => None
  end.

(** ** Context, events, promises *)

Record RetryContext : Type := mkContext {
  attempt : Z;
  retriesLeft : Z;
  elapsed : Z;
  nextDelay : Z
}.

Inductive Settled (E A : Type) : Type :=
| Resolves (after : Z) (value : A)
| Rejects (after : Z) (error : Thrown E)
| Never.
Arguments Resolves {E A} after value.
Arguments Rejects {E A} after error.
Arguments Never {E A}.

Inductive Event (E : Type) : Type :=
| EvCall (attempt : Z)                               (* fn(attempt) *)
| EvFailed (attempt : Z) (error : Thrown E)          (* catch (error) *)
| EvRetryIf (error : Thrown E) (context : RetryContext)
| EvOnRetry (error : Thrown E) (context : RetryContext)
| EvSleep (ms : Z).
Arguments EvCall {E} attempt.
Arguments EvFailed {E} attempt error.
Arguments EvRetryIf {E} error context.
Arguments EvOnRetry {E} error context.
Arguments EvSleep {E} ms.

Inductive Outcome (E A : Type) : Type :=
| Ok (a : A)
| Throw (e : Thrown E)
| Pending.
Arguments Ok {E A} a.
Arguments Throw {E A} e.
Arguments Pending {E A}.

(** What evaluating a call expression gives. *)
Inductive Completion (E A : Type) : Type :=
| Normal (value : A)            (* the call has a value *)
| Abrupt (error : Thrown E).    (* the call throws *)
Arguments Normal {E A} value.
Arguments Abrupt {E A} error.

Inductive Winner : Type :=
| OperationSettled
| SignalAborted
| TimerFired.

(** Who settles the promise of [withTimeout] first: the operation after
    [d] ms (if ever), the abort event after [a] ms (if ever), or the timer,
    which fires after [timer] ms.  Of two events of the same millisecond the
    abort event comes first, and the timer, which is set before the
    operation is called, comes before the operation. *)
Definition race (d : option Z) (timer : Z) (a : option Z) : Winner :=
  let opBeforeTimer :=
    match d with Some d => d <? timer | None => false end in
  let opBeforeAbort :=
    match d, a with
    | Some d, Some a => d <? a
    | Some _, None => true
    | None, _ => false
    end in
  let abortBeforeTimer :=
    match a with Some a => a <=? timer | None => false end in
  if opBeforeTimer && opBeforeAbort then OperationSettled
  else if abortBeforeTimer then SignalAborted
  else TimerFired.

(** ** The host's timers

    [setTimeout(callback, ms)] runs the callback when the host decides: the
    hosts fire late, and replace a delay outside the range they accept (in
    Node, below 1 or above 2^31 - 1) by one of their own.  [firesAfter t ms]
    is the number of milliseconds after which a timer set at time [t] for
    [ms] fires. *)
Class Timers : Type := { firesAfter : Z -> Q -> N }.

Section Model.

Context {T E U : Type} {host : Timers}.

Record World : Type := mkWorld {
  now : Z;                 (* Date.now() *)
  user : U;                (* state owned by the caller's closures *)
  trace : list (Event E)
}.

Definition advance (d : Z) (w : World) : World :=
  mkWorld (now w + d) (user w) (trace w).

Definition at_time (t : Z) (w : World) : World :=
  mkWorld t (user w) (trace w).

Definition record (ev : Event E) (w : World) : World :=
  mkWorld (now w) (user w) (trace w ++ [ev]).

Definition with_user (s : U) (w : World) : World :=
  mkWorld (now w) s (trace w).

(** Asynchronous computations. *)
Definition M (A : Type) : Type := World -> Outcome E A * World.

Definition ret {A : Type} (a : A) : M A := fun w => (Ok a, w).

Definition throw {A : Type} (e : Thrown E) : M A := fun w => (Throw e, w).

Definition bind {A B : Type} (m : M A) (k : A -> M B) : M B :=
  fun w =>
    match m w with
    | (Ok a, w1) => k a w1
    | (Throw e, w1) => (Throw e, w1)
    | (Pending, w1) => (Pending, w1)
    end.

Definition emit (ev : Event E) : M unit := fun w => (Ok tt, record ev w).

Definition Date_now : M Z := fun w => (Ok (now w), w).

(** [await p] *)
Definition await {A : Type} (p : Settled E A) : M A :=
  fun w =>
    match p with
    | Resolves d a => (Ok a, advance d w)
    | Rejects d e => (Throw e, advance d w)
    | Never => (Pending, w)
    end.

(** Caller-supplied capabilities: given the current time and the caller's
    state they start a promise and update the state. *)
Definition Capability (A : Type) : Type := Z -> U -> Settled E A * U.

Definition Operation : Type := Z -> Capability T.
Definition Predicate : Type := Thrown E -> RetryContext -> Capability bool.
Definition Observer : Type := Thrown E -> RetryContext -> Capability unit.

(** Start a capability: the promise it returns and the world it leaves. *)
Definition start {A : Type} (c : Capability A) (w : World)
  : Settled E A * World :=
  let '(p, s) := c (now w) (user w) in (p, with_user s w).

(** [fn(attempt)], with the call recorded. *)
Definition call (fn : Operation) (attempt : Z) (w : World)
  : Settled E T * World :=
  start (fn attempt) (record (EvCall attempt) w).

(** [await c(...)] for a callback. *)
Definition await_start {A : Type} (c : Capability A) : M A :=
  fun w => let '(p, w1) := start c w in await p w1.

(** [setTimeout(callback, ms)] called now: the instant at which the
    callback runs unless the timer is cleared. *)
Definition setTimeout (ms : Q) (w : World) : Z :=
  now w + Z.of_N (firesAfter (now w) ms).

(** ** sleep

    Rejected at once when the signal is already aborted; otherwise the timer
    and the abort event race, and the loser is torn down. *)
Definition sleep (ms : Z) (signal : option AbortSignal) : M unit :=
  fun w =>
    if aborted signal (now w) then (Throw new_AbortError, w)
    else
      let timeout := setTimeout (inject_Z ms) w in
      match abortTime signal with
      | Some a =>
          if a <=? timeout then (Throw new_AbortError, at_time a w)
          else (Ok tt, at_time timeout w)
      | None => (Ok tt, at_time timeout w)
      end.

(** ** withTimeout

    Rejected at once, without calling [fn], when the signal is already
    aborted; otherwise [fn] is called and its promise races the timer and
    the abort event ([settled] lets only the first one through). *)
Definition settleTime {A : Type} (p : Settled E A) : option Z :=
  match p with
  | Resolves d _ => Some d
  | Rejects d _ => Some d
  | Never => None
  end.

Definition withTimeout (fn : World -> Settled E T * World) (timeoutMs : Q)
    (signal : option AbortSignal) : M T :=
  fun w =>
    if aborted signal (now w) then (Throw new_AbortError, w)
    else
      let timeout := setTimeout timeoutMs w in
      let '(p, w1) := fn w in
      match race (settleTime p) (timeout - now w)
                 (option_map (fun a => a - now w) (abortTime signal)) with
      | OperationSettled => await p w1
      | SignalAborted =>
          (Throw new_AbortError,
           at_time (match abortTime signal with Some a => a | None => now w end) w1)
      | TimerFired =>
          (Throw (TimeoutError (AttemptTimedOutAfter timeoutMs)),
           at_time timeout w1)
      end.

(** ** Options *)

Record RetryOptions : Type := mkOptions {
  o_retries : option Q;
  o_minTimeout : option Q;
  o_maxTimeout : option Q;
  o_factor : option Q;
  o_jitter : option bool;
  o_attemptTimeout : option Q;
  o_totalTimeout : option Q;
  o_signal : option AbortSignal;
  o_retryIf : option Predicate;
  o_onRetry : option Observer
}.

(** The locals obtained by destructuring the options with [DEFAULTS]. *)
Record Settings : Type := mkSettings {
  retries : Q;
  minTimeout : Q;
  maxTimeout : Q;
  factor : Q;
  jitter : bool;
  attemptTimeout : option Q;
  totalTimeout : option Q;
  signal : option AbortSignal;
  retryIf : option Predicate;
  onRetry : option Observer
}.

Definition or_default {A : Type} (x : option A) (d : A) : A :=
  match x with Some a => a | None => d end.

Definition destructure (options : RetryOptions) : Settings :=
  {| retries := or_default (o_retries options) DEFAULTS.retries;
     minTimeout := or_default (o_minTimeout options) DEFAULTS.minTimeout;
     maxTimeout := or_default (o_maxTimeout options) DEFAULTS.maxTimeout;
     factor := or_default (o_factor options) DEFAULTS.factor;
     jitter := or_default (o_jitter options) DEFAULTS.jitter;
     attemptTimeout := o_attemptTimeout options;
     totalTimeout := o_totalTimeout options;
     signal := o_signal options;
     retryIf := o_retryIf options;
     onRetry := o_onRetry options |}.

Definition nonPositive (x : option Q) : bool :=
  match x with Some v => Qle_bool v 0 | None => false end.

(** The validation block of [retry]: the first violated check, if any. *)
Definition validate (c : Settings) : option (Thrown E) :=
  if Qltb (retries c) 0 || negb (Number_isInteger (retries c)) then
    Some (TypeError "retries must be a non-negative integer")
  else if Qle_bool (minTimeout c) 0 then
    Some (TypeError "minTimeout must be positive")
  else if Qle_bool (maxTimeout c) 0 then
    Some (TypeError "maxTimeout must be positive")
  else if Qle_bool (factor c) 0 then
    Some (TypeError "factor must be positive")
  else if nonPositive (attemptTimeout c) then
    Some (TypeError "attemptTimeout must be positive")
  else if nonPositive (totalTimeout c) then
    Some (TypeError "totalTimeout must be positive")
  else None.

(** ** The retry loop *)

Section Loop.

Variable fn : Operation.
Variable c : Settings.
Variable random : Z -> Q.   (* Math.random() drawn for a given attempt *)
Variable startTime : Z.

(** [retries] as the integer it is once validated. *)
Definition retryCount : Z := Qfloor (retries c).

(** The two checks at the top of an iteration. *)
Definition check_head (w : World) : option (Thrown E) :=
  let elapsed := now w - startTime in
  match totalTimeout c with
  | Some total =>
      if Qle_bool total (inject_Z elapsed) then
        Some (TimeoutError (TotalTimeoutExceeded total))
      else if aborted (signal c) (now w) then Some new_AbortError
      else None
  | None =>
      if aborted (signal c) (now w) then Some new_AbortError else None
  end.

(** The [try] block: one attempt. *)
Definition run_attempt (attempt : Z) : M T :=
  match attemptTimeout c with
  | Some timeoutMs => withTimeout (call fn attempt) timeoutMs (signal c)
  | None => fun w => let '(p, w1) := call fn attempt w in await p w1
  end.

(** The check made before sleeping. *)
Definition check_budget (nextDelay : Z) (w : World) : option (Thrown E) :=
  match totalTimeout c with
  | Some total =>
      let timeRemaining := (total - inject_Z (now w - startTime))%Q in
      if Qltb timeRemaining (inject_Z nextDelay) then
        Some (TimeoutError (TotalTimeoutWouldBeExceeded total))
      else None
  | None => None
  end.

Definition consult_retryIf (error : Thrown E) (context : RetryContext)
  : M unit :=
  match retryIf c with
  | Some p =>
      bind (emit (EvRetryIf error context)) (fun _ =>
      bind (await_start (p error context)) (fun shouldRetry =>
      if negb shouldRetry then throw error else ret tt))
  | None => ret tt
  end.

Definition notify_onRetry (error : Thrown E) (context : RetryContext)
  : M unit :=
  match onRetry c with
  | Some cb =>
      bind (emit (EvOnRetry error context)) (fun _ =>
      await_start (cb error context))
  | None => ret tt
  end.

(** The end of the [catch] block: budget check, then the delay. *)
Definition wait_before_retry (nextDelay : Z) : M unit :=
  fun w =>
    match check_budget nextDelay w with
    | Some timeout => (Throw timeout, w)
    | None => bind (emit (EvSleep nextDelay))
                   (fun _ => sleep nextDelay (signal c)) w
    end.

(** [calculateDelay(attempt, minTimeout, maxTimeout, factor, jitter)] as the
    [catch] block calls it. *)
Definition delayAfter (attempt : Z) : Z :=
  calculateDelay attempt (minTimeout c) (maxTimeout c) (factor c)
                 (jitter c) (random attempt).

(** The part of the [catch] block after the last-attempt test. *)
Definition schedule_retry (attempt : Z) (error : Thrown E) (retriesLeft : Z)
  : M unit :=
  let nextDelay := delayAfter attempt in
  bind Date_now (fun t =>
  let context := mkContext attempt retriesLeft (t - startTime) nextDelay in
  bind (consult_retryIf error context) (fun _ =>
  bind (notify_onRetry error context) (fun _ =>
  wait_before_retry nextDelay))).

(** The [catch] block. *)
Definition on_failure (attempt : Z) (error : Thrown E) : M unit :=
  bind (emit (EvFailed attempt error)) (fun _ =>
  if instanceof_AbortError error then throw error
  else
    let retriesLeft := retryCount + 1 - attempt in
    let isLastAttempt := retriesLeft =? 0 in
    if isLastAttempt then throw error
    else schedule_retry attempt error retriesLeft).

(** The [for] loop, by recursion on the number of iterations still allowed
    by [attempt <= retries + 1]; the base case is the statement after the
    loop. *)
Fixpoint loop (remaining : nat) (attempt : Z) (lastError : Thrown E)
  : M T :=
  match remaining with
  | O => throw lastError
  | S remaining' =>
      fun w =>
        match check_head w with
        | Some e => (Throw e, w)
        | None =>
            match run_attempt attempt w with
            | (Ok v, w1) => (Ok v, w1)
            | (Pending, w1) => (Pending, w1)
            | (Throw error, w1) =>
                match on_failure attempt error w1 with
                | (Ok _, w2) => loop remaining' (attempt + 1) error w2
                | (Throw e, w2) => (Throw e, w2)
                | (Pending, w2) => (Pending, w2)
                end
            end
        end
  end.

End Loop.

(** ** retry *)
Definition retry (fn : Operation) (options : RetryOptions)
    (random : Z -> Q) : M T :=
  fun w =>
    let c := destructure options in
    match validate c with
    | Some e => (Throw e, w)
    | None =>
        if aborted (signal c) (now w) then (Throw new_AbortError, w)
        else
          let startTime := now w in
          loop fn c random startTime
               (Z.to_nat (retryCount c + 1)) 1 Undefined w
    end.

(** ** Calling an [async function]

    [retry] is declared [async]: the call returns a promise at once, and
    whatever the body throws, even before its first [await], rejects that
    promise instead of being thrown at the caller.  The promise is described
    by how and how long after the call it settles. *)
Definition async {A : Type} (body : M A) (w : World)
  : Completion E (Settled E A) :=
  let '(outcome, w') := body w in
  Normal match outcome with
         | Ok a => Resolves (now w' - now w) a
         | Throw e => Rejects (now w' - now w) e
         | Pending => Never
         end.

(** ** retryable *)
Definition retryable {Args : Type} (fn : Args -> Capability T)
    (options : RetryOptions) : Args -> (Z -> Q) -> M T :=
  fun args => retry (fun _ => fn args) options.

(** An operation that also notes, in the caller's state, the arguments it
    is called with. *)
Definition spy {Args : Type} (fn : Args -> Capability T)
  : Args -> Z -> (U * list Args) -> Settled E T * (U * list Args) :=
  fun args t s =>
    let '(p, s') := fn args t (fst s) in (p, (s', snd s ++ [args])).

(** ** Reading a trace *)

Definition isCall (ev : Event E) : bool :=
  match ev with EvCall _ => true | _ => false end.
Definition isFailed (ev : Event E) : bool :=
  match ev with EvFailed _ _ => true | _ => false end.
Definition isRetryIf (ev : Event E) : bool :=
  match ev with EvRetryIf _ _ => true | _ => false end.
Definition isOnRetry (ev : Event E) : bool :=
  match ev with EvOnRetry _ _ => true | _ => false end.
Definition isSleep (ev : Event E) : bool :=
  match ev with EvSleep _ => true | _ => false end.

Definition count (p : Event E -> bool) (tr : list (Event E)) : nat :=
  List.length (filter p tr).

(** The errors caught by the loop, oldest first. *)
Fixpoint failures (tr : list (Event E)) : list (Thrown E) :=
  match tr with
  | [] => []
  | EvFailed _ error :: tr' => error :: failures tr'
  | _ :: tr' => failures tr'
  end.

Definition invocations (tr : list (Event E)) : nat := count isCall tr.
Definition failedAttempts (tr : list (Event E)) : nat :=
  List.length (failures tr).
Definition onRetryCalls (tr : list (Event E)) : nat := count isOnRetry tr.

End Model.

(** ** The constraints of the configuration, in the words of the
    specification (compared with [validate] below). *)
Definition isIntegral (x : Q) : Prop := exists n : Z, (x == inject_Z n)%Q.

Definition violatesConstraint {E U : Type} (c : @Settings E U) : Prop :=
  (retries c < 0)%Q \/ ~ isIntegral (retries c) \/
  (minTimeout c <= 0)%Q \/ (maxTimeout c <= 0)%Q \/ (factor c <= 0)%Q \/
  (exists t, attemptTimeout c = Some t /\ (t <= 0)%Q) \/
  (exists t, totalTimeout c = Some t /\ (t <= 0)%Q).

(** Callbacks that leave an observation [obs] of the caller's state
    unchanged. *)
Definition callbacks_preserve {E U L : Type} (obs : U -> L)
    (c : @Settings E U) : Prop :=
  (forall p, retryIf c = Some p ->
     forall error context t s, obs (snd (p error context t s)) = obs s) /\
  (forall cb, onRetry c = Some cb ->
     forall error context t s, obs (snd (cb error context t s)) = obs s).

(** The two total-timeout errors of the loop. *)
Definition isTotalTimeout {E : Type} (e : Thrown E) : bool :=
  match e with
  | TimeoutError (TotalTimeoutExceeded _) => true
  | TimeoutError (TotalTimeoutWouldBeExceeded _) => true
  | _ => false
  end.

(** A caller whose operation and callbacks never reject with an error that
    reads like a total timeout of the loop. *)
Definition caller_errors_foreign {T E U : Type}
    (fn : @Operation T E U) (c : @Settings E U) : Prop :=
  (forall attempt t s d e,
     fst (fn attempt t s) = Rejects d e -> isTotalTimeout e = false) /\
  (forall p, retryIf c = Some p ->
     forall error context t s d e,
       fst (p error context t s) = Rejects d e -> isTotalTimeout e = false) /\
  (forall cb, onRetry c = Some cb ->
     forall error context t s d e,
       fst (cb error context t s) = Rejects d e -> isTotalTimeout e = false).

(** [retryIf], if configured, answers [true] when it is asked about
    [error] in [context]. *)
Definition accepts {E U : Type} (c : @Settings E U)
    (error : Thrown E) (context : RetryContext) : Prop :=
  match retryIf c with
  | None => True
  | Some p =>
      forall t s, exists d s', p error context t s = (Resolves d true, s')
  end.

(** [retryIf] accepts every failure it is consulted about in the trace. *)
Definition accepted {E U : Type} (c : @Settings E U)
    (tr : list (Event E)) : Prop :=
  forall error context,
    In (EvRetryIf error context) tr -> accepts c error context.



(** The trace ends with a consultation of [retryIf]: asking the predicate
    is the last thing the call did. *)
Definition stoppedAtRetryIf {E : Type} (tr : list (Event E)) : bool :=
  match rev tr with
  | EvRetryIf _ _ :: _ => true
  | _ => false
  end.

(** ** Sample callers, after the test suite

    Results are strings, the caller's state is its call counter, and the
    error [new Error("Failure n")] is represented by [Other n]. *)

(** Node's timers when they fire on time: a delay below 1 or above
    2^31 - 1 is replaced by 1, and a fractional delay is truncated. *)
#[global] Instance nodeTimers : Timers :=
  {| firesAfter := fun _ ms =>
       if Qle_bool 1 ms && Qle_bool ms 2147483647
       then Z.to_N (Qfloor ms) else 1%N |}.

Definition world0 : @World nat nat := mkWorld 0 0%nat [].

(** [createFailingFn(failCount, returnValue)] *)
Definition createFailingFn (failCount : nat) (returnValue : string)
  : @Operation string nat nat :=
  fun _ _ calls =>
    let calls := S calls in
    if (calls <=? failCount)%nat then (Rejects 0 (Other calls), calls)
    else (Resolves 0 returnValue, calls).

(** An operation that needs [ms] milliseconds to produce [value]. *)
Definition slowFn (ms : Z) (value : string) : @Operation string nat nat :=
  fun _ _ calls => (Resolves ms value, S calls).

(** [retryIf: () => false] *)
Definition neverRetry : @Predicate nat nat :=
  fun _ _ _ s => (Resolves 0 false, s).

(** A [retryIf] that throws. *)
Definition brokenPredicate : @Predicate nat nat :=
  fun _ _ _ s => (Rejects 0 (Other 99%nat), s).

(** [onRetry: () => {}] *)
Definition silentObserver : @Observer nat nat :=
  fun _ _ _ s => (Resolves 0 tt, s).

(** An [onRetry] that throws. *)
Definition brokenObserver : @Observer nat nat :=
  fun _ _ _ s => (Rejects 0 (Other 98%nat), s).

Definition noJitter : Z -> Q := fun _ => 0%Q.

(** [{ retries, minTimeout: 10, jitter: false }] *)
Definition quick (retries : Q) : @RetryOptions nat nat :=
  mkOptions (Some retries) (Some 10%Q) None None (Some false)
            None None None None None.

(** [{ retries: 3, minTimeout: 10, jitter: false, retryIf, onRetry }] *)
Definition withCallbacks (p : option (@Predicate nat nat))
    (cb : option (@Observer nat nat)) : @RetryOptions nat nat :=
  mkOptions (Some 3%Q) (Some 10%Q) None None (Some false)
            None None None p cb.

(** [{ retries: 1, minTimeout: 10, jitter: false, signal }] with a signal
    aborted before the call. *)
Definition alreadyAborted : @RetryOptions nat nat :=
  mkOptions (Some 1%Q) (Some 10%Q) None None (Some false)
            None None (Some (AbortedAt 0)) None None.

(** [{ retries: 1, minTimeout: 10, jitter: false, totalTimeout: 10, signal }]
    with a signal aborted 12 ms after the call. *)
Definition tightBudget : @RetryOptions nat nat :=
  mkOptions (Some 1%Q) (Some 10%Q) None None (Some false)
            None (Some 10%Q) (Some (AbortedAt 12)) None None.

(** [{ retries: 2, minTimeout: 10, jitter: false, attemptTimeout: 20 }] *)
Definition impatient : @RetryOptions nat nat :=
  mkOptions (Some 2%Q) (Some 10%Q) None None (Some false)
            (Some 20%Q) None None None None.

(** [{ retries: 3, minTimeout: 10, jitter: false, attemptTimeout: 200,
    signal }] with a signal aborted 30 ms after the call. *)
Definition abortedMidway : @RetryOptions nat nat :=
  mkOptions (Some 3%Q) (Some 10%Q) None None (Some false)
            (Some 200%Q) None (Some (AbortedAt 30)) None None.

(** [(a, b) => a + b], failing on its first [failCount] calls. *)
Definition flakySum (failCount : nat) : Z * Z -> @Capability nat nat Z :=
  fun '(a, b) _ calls =>
    let calls := S calls in
    if (calls <=? failCount)%nat then (Rejects 0 (Other calls), calls)
    else (Resolves 0 (a + b), calls).

(** [{ retries: 3, minTimeout: 10, jitter: false }] for a caller whose state
    also holds the notes of a [spy]. *)
Definition quickNoting : @RetryOptions nat (nat * list (Z * Z)) :=
  mkOptions (Some 3%Q) (Some 10%Q) None None (Some false)
            None None None None None.

(** ** The shape of a run

    What one call can add to the trace, and how it can end, read off the
    loop: a head check that throws adds nothing; an attempt adds its call;
    a caught failure adds itself and then, in this order and as far as the
    [catch] block gets, the consultation of [retryIf], the notification of
    [onRetry] and the delay, after which the next attempt starts. *)

Section Shape.

Context {T E U : Type}.
Variable c : @Settings E U.
Variable random : Z -> Q.

(** The context built by the [catch] block of [attempt], [elapsed] ms after
    the start. *)
Definition contextAt (attempt elapsed : Z) : RetryContext :=
  mkContext attempt (retryCount c + 1 - attempt) elapsed
            (delayAfter c random attempt).

Definition asked (error : Thrown E) (context : RetryContext)
  : list (Event E) :=
  match retryIf c with Some _ => [EvRetryIf error context] | None => [] end.

Definition told (error : Thrown E) (context : RetryContext)
  : list (Event E) :=
  match onRetry c with Some _ => [EvOnRetry error context] | None => [] end.

Inductive Shaped : Z -> list (Event E) -> Outcome E T -> Prop :=
| shaped_head_timeout attempt total :
    totalTimeout c = Some total ->
    Shaped attempt [] (Throw (TimeoutError (TotalTimeoutExceeded total)))
| shaped_head_abort attempt t :
    signal c = Some (AbortedAt t) ->
    Shaped attempt [] (Throw new_AbortError)
| shaped_ok attempt v :
    attempt <= retryCount c + 1 ->
    Shaped attempt [EvCall attempt] (Ok v)
| shaped_hang attempt :
    attempt <= retryCount c + 1 ->
    attemptTimeout c = None ->
    Shaped attempt [EvCall attempt] Pending
| shaped_rethrow attempt error :
    attempt <= retryCount c + 1 ->
    instanceof_AbortError error = true \/ attempt = retryCount c + 1 ->
    Shaped attempt [EvCall attempt; EvFailed attempt error] (Throw error)
| shaped_refused attempt error elapsed r :
    attempt < retryCount c + 1 ->
    instanceof_AbortError error = false ->
    retryIf c <> None ->
    (forall v, r <> Ok v) ->
    Shaped attempt
      [EvCall attempt; EvFailed attempt error;
       EvRetryIf error (contextAt attempt elapsed)] r
| shaped_observer attempt error elapsed r :
    attempt < retryCount c + 1 ->
    instanceof_AbortError error = false ->
    onRetry c <> None ->
    (forall v, r <> Ok v) ->
    Shaped attempt
      (EvCall attempt :: EvFailed attempt error ::
       asked error (contextAt attempt elapsed) ++
       [EvOnRetry error (contextAt attempt elapsed)]) r
| shaped_budget attempt error elapsed total :
    attempt < retryCount c + 1 ->
    instanceof_AbortError error = false ->
    totalTimeout c = Some total ->
    Shaped attempt
      (EvCall attempt :: EvFailed attempt error ::
       asked error (contextAt attempt elapsed) ++
       told error (contextAt attempt elapsed))
      (Throw (TimeoutError (TotalTimeoutWouldBeExceeded total)))
| shaped_sleep_aborted attempt error elapsed t :
    attempt < retryCount c + 1 ->
    instanceof_AbortError error = false ->
    signal c = Some (AbortedAt t) ->
    Shaped attempt
      (EvCall attempt :: EvFailed attempt error ::
       asked error (contextAt attempt elapsed) ++
       told error (contextAt attempt elapsed) ++
       [EvSleep (delayAfter c random attempt)])
      (Throw new_AbortError)
| shaped_next attempt error elapsed rest r :
    attempt < retryCount c + 1 ->
    instanceof_AbortError error = false ->
    Shaped (attempt + 1) rest r ->
    Shaped attempt
      (EvCall attempt :: EvFailed attempt error ::
       asked error (contextAt attempt elapsed) ++
       told error (contextAt attempt elapsed) ++
       EvSleep (delayAfter c random attempt) :: rest) r.

End Shape.

(** The attempt numbers the operation was called with, oldest first. *)
Fixpoint attemptsCalled {E : Type} (tr : list (Event E)) : list Z :=
  match tr with
  | [] => []
  | EvCall attempt :: tr' => attempt :: attemptsCalled tr'
  | _ :: tr' => attemptsCalled tr'
  end.

Definition retryIfCalls {E : Type} (tr : list (Event E)) : nat :=
  count isRetryIf tr.

Definition delaysStarted {E : Type} (tr : list (Event E)) : nat :=
  count isSleep tr.

(** Callbacks whose promises always settle. *)
Definition callbacks_settle {E U : Type} (c : @Settings E U) : Prop :=
  (forall p, retryIf c = Some p ->
     forall error context t s, fst (p error context t s) <> Never) /\
  (forall cb, onRetry c = Some cb ->
     forall error context t s, fst (cb error context t s) <> Never).

(** Options that configure retries and backoff only. *)
Definition backoffOnly {E U : Type} (options : @RetryOptions E U) : Prop :=
  o_attemptTimeout options = None /\ o_totalTimeout options = None /\
  o_signal options = None /\
  o_retryIf options = None /\ o_onRetry options = None.

(** ** The test harness ([describe], [it], [runTests]) *)















(** ** The run-all script

    [execSync(cmd)] is described by whether it returns ([true]) or throws,
    which may depend on the commands run before. *)

Record Shell : Type := mkShell {
  executed : list string;
  console : list string
}.

(** [run(label, cmd)] *)
Definition run (exec : list string -> string -> bool)
    (label cmd : string) (sh : Shell) : bool * Shell :=
  let sh1 := mkShell (executed sh) (console sh ++ [("==> " ++ label)%string]) in
  (exec (executed sh1) cmd,
   mkShell (executed sh1 ++ [cmd]) (console sh1)).

Definition blank (sh : Shell) : Shell :=
  mkShell (executed sh) (console sh ++ [""%string]).

(** The body of the script: the final shell and the exit code. *)
Definition run_all (exec : list string -> string -> bool) (sh : Shell)
  : Z * Shell :=
  let success := true in
  let '(ok, sh) := run exec "tests" "node test/run.js" sh in
  let success := ok && success in
  let sh := blank sh in
  let '(ok, sh) := run exec "sample" "node sample/app.js" sh in
  let success := ok && success in
  let sh := blank sh in
  let '(ok, sh) := run exec "benchmarks" "node benchmark/bench.js" sh in
  let success := ok && success in
  ((if success then 0 else 1), sh).

(** ** Further sample callers *)

(** [retryIf: () => true] *)
Definition retryAll : @Predicate nat nat :=
  fun _ _ _ s => (Resolves 0 true, s).

(** An operation whose promise never settles. *)
Definition hangingFn : @Operation string nat nat :=
  fun _ _ calls => (Never, S calls).

(** [{ retries: 3, minTimeout: 10, jitter: false, totalTimeout: 50, signal }]
    with a signal aborted 30 ms after the call. *)
Definition deadlineAndSignal : @RetryOptions nat nat :=
  mkOptions (Some 3%Q) (Some 10%Q) None None (Some false)
            None (Some 50%Q) (Some (AbortedAt 30)) None None.

(** [{ retries: 3, minTimeout: 10, factor: 0, totalTimeout: -5 }] *)
Definition misconfigured : @RetryOptions nat nat :=
  mkOptions (Some 3%Q) (Some 10%Q) None (Some 0%Q) None
            None (Some (-5)%Q) None None None.

(** An operation that always fails with the same error, and
    [retryIf: (error) => error.status === 429]. *)
Definition alwaysBusy : @Operation string nat nat :=
  fun _ _ calls => (Rejects 0 (Other 429%nat), S calls).

Definition retryOn429 : @Predicate nat nat :=
  fun error _ _ s =>
    (Resolves 0 match error with
                | Other status => Nat.eqb status 429
                | _ => false
                end, s).



(** An [execSync] under which the sample application fails. *)
Definition sampleBroken : list string -> string -> bool :=
  fun _ cmd => negb (String.eqb cmd "node sample/app.js").

(** * Properties *)

(** ** The model on the scenarios of the test suite *)

(** "should retry on failure and eventually succeed" *)
Example retry_recovers :
  retry (createFailingFn 2 "recovered") (quick 3) noJitter world0
    = (Ok "recovered"%string,
       mkWorld 30 3%nat
         [EvCall 1; EvFailed 1 (Other 1%nat); EvSleep 10;
          EvCall 2; EvFailed 2 (Other 2%nat); EvSleep 20;
          EvCall 3]).
Proof. vm_compute. reflexivity. Qed.

(** "should throw after exhausting all retries" *)
Example retry_exhausts :
  retry (createFailingFn 10 "never") (quick 2) noJitter world0
    = (Throw (Other 3%nat),
       mkWorld 30 3%nat
         [EvCall 1; EvFailed 1 (Other 1%nat); EvSleep 10;
          EvCall 2; EvFailed 2 (Other 2%nat); EvSleep 20;
          EvCall 3; EvFailed 3 (Other 3%nat)]).
Proof. vm_compute. reflexivity. Qed.

(** "should increase delay exponentially", "should respect maxTimeout" *)
Example backoff_sequence :
  map (fun n => calculateDelay n 50 30000 2 false 0) [1; 2; 3]
    = [50; 100; 200] /\
  map (fun n => calculateDelay n 50 80 2 false 0) [1; 2; 3]
    = [50; 80; 80].
Proof. split; reflexivity. Qed.

(** "should timeout slow attempts" *)
Example retry_times_out :
  retry (slowFn 100 "too slow") impatient noJitter world0
    = (Throw (TimeoutError (AttemptTimedOutAfter 20)),
       mkWorld 90 3%nat
         [EvCall 1; EvFailed 1 (TimeoutError (AttemptTimedOutAfter 20));
          EvSleep 10;
          EvCall 2; EvFailed 2 (TimeoutError (AttemptTimedOutAfter 20));
          EvSleep 20;
          EvCall 3; EvFailed 3 (TimeoutError (AttemptTimedOutAfter 20))]).
Proof. vm_compute. reflexivity. Qed.

(** "should abort during attempt execution" *)
Example retry_aborted_midway :
  retry (slowFn 100 "too slow") abortedMidway noJitter world0
    = (Throw new_AbortError,
       mkWorld 30 1%nat [EvCall 1; EvFailed 1 new_AbortError]).
Proof. vm_compute. reflexivity. Qed.

(** ** Numbers *)

Lemma Qltb_true_iff (x y : Q) : Qltb x y = true <-> (x < y)%Q.
Proof.
  unfold Qltb. rewrite negb_true_iff.
  split; intro H.
  - apply Qnot_le_lt. intro Hle. apply Qle_bool_iff in Hle. congruence.
  - destruct (Qle_bool y x) eqn:Hb; [|reflexivity].
    apply Qle_bool_iff in Hb. exfalso. exact (Qlt_not_le _ _ H Hb).
Qed.

Lemma Qltb_false_iff (x y : Q) : Qltb x y = false <-> (y <= x)%Q.
Proof.
  unfold Qltb. rewrite negb_false_iff. apply Qle_bool_iff.
Qed.

Lemma Qle_bool_false_iff (x y : Q) : Qle_bool x y = false <-> (y < x)%Q.
Proof.
  split; intro H.
  - apply Qnot_le_lt. intro Hle. apply Qle_bool_iff in Hle. congruence.
  - destruct (Qle_bool x y) eqn:Hb; [|reflexivity].
    apply Qle_bool_iff in Hb. exfalso. exact (Qlt_not_le _ _ H Hb).
Qed.

Lemma Number_isInteger_iff (x : Q) :
  Number_isInteger x = true <-> isIntegral x.
Proof.
  unfold Number_isInteger, isIntegral. rewrite Qeq_bool_iff. split.
  - intro H. exists (Qfloor x). symmetry. exact H.
  - intros [n Hn]. rewrite Hn at 1. rewrite Qfloor_Z. symmetry. exact Hn.
Qed.

(** ** Validation *)

Section Validation.

Context {T E U : Type} {host : Timers}.
Implicit Types (c : @Settings E U) (w : @World E U).

(** [validate] accepts exactly the configurations that violate no
    constraint. *)
Lemma validate_None_iff c :
  validate c = None <-> ~ violatesConstraint c.
Proof.
  unfold validate, violatesConstraint, nonPositive. split.
  - intros H.
    destruct (Qltb (retries c) 0) eqn:H1; [discriminate|].
    destruct (Number_isInteger (retries c)) eqn:H2; [|discriminate].
    simpl in H.
    destruct (Qle_bool (minTimeout c) 0) eqn:H3; [discriminate|].
    destruct (Qle_bool (maxTimeout c) 0) eqn:H4; [discriminate|].
    destruct (Qle_bool (factor c) 0) eqn:H5; [discriminate|].
    apply Qltb_false_iff in H1. apply Number_isInteger_iff in H2.
    apply Qle_bool_false_iff in H3, H4, H5.
    intros [V|[V|[V|[V|[V|[[t [Ht V]]|[t [Ht V]]]]]]]].
    + exact (Qlt_not_le _ _ V H1).
    + exact (V H2).
    + exact (Qlt_not_le _ _ H3 V).
    + exact (Qlt_not_le _ _ H4 V).
    + exact (Qlt_not_le _ _ H5 V).
    + rewrite Ht in H. apply Qle_bool_iff in V. rewrite V in H. discriminate.
    + rewrite Ht in H. apply Qle_bool_iff in V. rewrite V in H.
      destruct (attemptTimeout c) as [a|]; [destruct (Qle_bool a 0)|];
        discriminate.
  - intros H.
    destruct (Qltb (retries c) 0) eqn:H1.
    { exfalso. apply H. left. apply Qltb_true_iff. exact H1. }
    destruct (Number_isInteger (retries c)) eqn:H2.
    2:{ exfalso. apply H. right. left. intro Hi.
        apply Number_isInteger_iff in Hi. congruence. }
    simpl.
    destruct (Qle_bool (minTimeout c) 0) eqn:H3.
    { exfalso. apply H. do 2 right. left. apply Qle_bool_iff. exact H3. }
    destruct (Qle_bool (maxTimeout c) 0) eqn:H4.
    { exfalso. apply H. do 3 right. left. apply Qle_bool_iff. exact H4. }
    destruct (Qle_bool (factor c) 0) eqn:H5.
    { exfalso. apply H. do 4 right. left. apply Qle_bool_iff. exact H5. }
    destruct (attemptTimeout c) as [a|] eqn:Ha.
    { destruct (Qle_bool a 0) eqn:H6.
      { exfalso. apply H. do 5 right. left. exists a. split; [reflexivity|].
        apply Qle_bool_iff. exact H6. }
      destruct (totalTimeout c) as [t|] eqn:Ht; [|reflexivity].
      destruct (Qle_bool t 0) eqn:H7; [|reflexivity].
      exfalso. apply H. do 6 right. exists t. split; [reflexivity|].
      apply Qle_bool_iff. exact H7. }
    destruct (totalTimeout c) as [t|] eqn:Ht; [|reflexivity].
    destruct (Qle_bool t 0) eqn:H7; [|reflexivity].
    exfalso. apply H. do 6 right. exists t. split; [reflexivity|].
    apply Qle_bool_iff. exact H7.
Qed.

(** Whatever [validate] rejects, it rejects with a [TypeError]. *)
Lemma validate_TypeError c (e : Thrown E) :
  validate c = Some e -> instanceof_TypeError e = true.
Proof.
  unfold validate.
  repeat match goal with
         | |- context [if ?b then _ else _] => destruct b
         end; intro H; inversion H; reflexivity.
Qed.

(** C6 (amended). A configuration in which some field violates its
    constraint makes [retry] fail with a TypeError before anything else
    happens: the world is left as it was (no time has passed, the operation
    and the callbacks were never invoked, nothing was retried).  The error
    is not thrown at the caller: [retry] being [async], the call returns a
    promise, which is rejected with the TypeError by the time the call
    returns. *)
Theorem invalid_configuration_fails_fast
    (fn : @Operation T E U) (options : RetryOptions) (random : Z -> Q) w :
  violatesConstraint (destructure options) ->
  exists e : Thrown E,
    instanceof_TypeError e = true /\
    retry fn options random w = (Throw e, w) /\
    async (retry fn options random) w = Normal (Rejects 0 e).
Proof.
  intro Hv. unfold async, retry.
  destruct (validate (destructure options)) as [e|] eqn:Hval.
  - exists e. split; [exact (validate_TypeError _ _ Hval)|].
    split; [reflexivity|]. rewrite Z.sub_diag. reflexivity.
  - exfalso. apply validate_None_iff in Hval. exact (Hval Hv).
Qed.

End Validation.

(** ** Counting events *)

Section Counting.

Context {E : Type}.
Implicit Types (p : Event E -> bool) (tr : list (Event E)).

Lemma count_app p tr1 tr2 : count p (tr1 ++ tr2) = (count p tr1 + count p tr2)%nat.
Proof. unfold count. rewrite filter_app, length_app. reflexivity. Qed.

Lemma count_cons p ev tr :
  count p (ev :: tr) = ((if p ev then 1 else 0) + count p tr)%nat.
Proof. unfold count. simpl. destruct (p ev); reflexivity. Qed.

Lemma count_nil p : count p [] = 0%nat.
Proof. reflexivity. Qed.

Lemma failures_app tr1 tr2 :
  failures (tr1 ++ tr2) = failures tr1 ++ failures tr2.
Proof.
  induction tr1 as [|ev tr1 IH]; [reflexivity|].
  destruct ev; simpl; rewrite IH; reflexivity.
Qed.

End Counting.

Lemma accepted_cons {E U : Type} (c : @Settings E U) ev tr :
  accepted c (ev :: tr) -> accepted c tr.
Proof. intros H error context Hin. apply H. right. exact Hin. Qed.

Lemma accepted_app {E U : Type} (c : @Settings E U) tr1 tr2 :
  accepted c (tr1 ++ tr2) -> accepted c tr1 /\ accepted c tr2.
Proof.
  intro H. split; intros error context Hin; apply H; apply in_or_app;
    [left|right]; exact Hin.
Qed.

(** ** The pieces of one iteration *)

Ltac break_match_in H :=
  match type of H with
  | context [match ?x with _ => _ end] => destruct x eqn:?
  | context [if ?x then _ else _] => destruct x eqn:?
  end.

Ltac count_events :=
  repeat first [rewrite count_app | rewrite count_cons | rewrite count_nil];
  simpl.

Section Iteration.

Context {T E U : Type} {host : Timers}.
Variable fn : @Operation T E U.
Variable c : @Settings E U.
Variable random : Z -> Q.
Variable startTime : Z.

Implicit Types (w : @World E U) (error e : Thrown E).

Lemma check_head_not_aborted w :
  check_head c startTime w = None -> aborted (signal c) (now w) = false.
Proof.
  unfold check_head. intro H.
  destruct (totalTimeout c) as [total|].
  - destruct (Qle_bool total (inject_Z (now w - startTime))); [discriminate|].
    destruct (aborted (signal c) (now w)); [discriminate|reflexivity].
  - destruct (aborted (signal c) (now w)); [discriminate|reflexivity].
Qed.

Lemma call_effect attempt w (p : Settled E T) w1 :
  call fn attempt w = (p, w1) ->
  trace w1 = trace w ++ [EvCall attempt] /\ now w1 = now w.
Proof.
  unfold call, start. simpl.
  destruct (fn attempt (now w) (user w)) as [p0 s].
  intro H. inversion H; subst. split; reflexivity.
Qed.

(** An attempt that starts with the signal quiet calls the operation
    exactly once. *)
Lemma run_attempt_trace attempt w (r : Outcome E T) w' :
  aborted (signal c) (now w) = false ->
  run_attempt fn c attempt w = (r, w') ->
  trace w' = trace w ++ [EvCall attempt].
Proof.
  intros Hq H. unfold run_attempt, withTimeout, await in H.
  destruct (attemptTimeout c); cbv beta in H; try rewrite Hq in H;
    destruct (call fn attempt w) as [p w1] eqn:Hc;
    apply call_effect in Hc; destruct Hc as [Htr _];
    repeat break_match_in H; inversion H; subst; exact Htr.
Qed.

(** On the last permitted attempt, and for an [AbortError], the [catch]
    block rethrows at once. *)
Lemma on_failure_final attempt error w :
  retryCount c + 1 - attempt = 0 ->
  on_failure c random startTime attempt error w
    = (Throw error, record (EvFailed attempt error) w).
Proof.
  intro H. unfold on_failure, bind, emit, throw. rewrite H. simpl.
  destruct (instanceof_AbortError error); reflexivity.
Qed.

Lemma on_failure_abort attempt error w :
  instanceof_AbortError error = true ->
  on_failure c random startTime attempt error w
    = (Throw error, record (EvFailed attempt error) w).
Proof.
  intro H. unfold on_failure, bind, emit, throw. rewrite H. reflexivity.
Qed.

Lemma on_failure_retry attempt error w :
  instanceof_AbortError error = false ->
  retryCount c + 1 - attempt <> 0 ->
  on_failure c random startTime attempt error w
    = schedule_retry c random startTime attempt error
        (retryCount c + 1 - attempt) (record (EvFailed attempt error) w).
Proof.
  intros Ha Hl. unfold on_failure, bind, emit. rewrite Ha.
  apply Z.eqb_neq in Hl. rewrite Hl. reflexivity.
Qed.

Lemma await_start_effect {A : Type} (cap : Capability A) w
    (r : Outcome E A) w' :
  await_start cap w = (r, w') -> trace w' = trace w.
Proof.
  unfold await_start, start, await.
  destruct (cap (now w) (user w)) as [p s].
  destruct p; intro H; inversion H; subst; reflexivity.
Qed.

Lemma consult_retryIf_effect error context w (r : Outcome E unit) w' :
  consult_retryIf c error context w = (r, w') ->
  trace w' = trace w ++
    match retryIf c with Some _ => [EvRetryIf error context] | None => [] end.
Proof.
  unfold consult_retryIf. destruct (retryIf c) as [p|].
  - unfold bind, emit.
    destruct (await_start (p error context) (record (EvRetryIf error context) w))
      as [o w1] eqn:Hs.
    apply await_start_effect in Hs. simpl in Hs.
    destruct o as [b| |]; [destruct b|..]; unfold throw, ret; simpl;
      intro H; inversion H; subst; exact Hs.
  - unfold ret. intro H. inversion H; subst. rewrite app_nil_r. reflexivity.
Qed.

Lemma notify_onRetry_effect error context w (r : Outcome E unit) w' :
  notify_onRetry c error context w = (r, w') ->
  trace w' = trace w ++
    match onRetry c with Some _ => [EvOnRetry error context] | None => [] end.
Proof.
  unfold notify_onRetry. destruct (onRetry c) as [cb|].
  - unfold bind, emit. intro H. apply await_start_effect in H. exact H.
  - unfold ret. intro H. inversion H; subst. rewrite app_nil_r. reflexivity.
Qed.

Lemma sleep_effect ms w (r : Outcome E unit) w' :
  sleep ms (signal c) w = (r, w') -> trace w' = trace w.
Proof.
  unfold sleep. intro H.
  repeat break_match_in H; inversion H; subst; reflexivity.
Qed.

Lemma wait_before_retry_effect nextDelay w (r : Outcome E unit) w' :
  wait_before_retry c startTime nextDelay w = (r, w') ->
  (trace w' = trace w /\ r <> Ok tt) \/
  trace w' = trace w ++ [EvSleep nextDelay].
Proof.
  unfold wait_before_retry. destruct (check_budget c startTime nextDelay w).
  - intro H. inversion H; subst. left. split; [reflexivity|discriminate].
  - unfold bind, emit. intro H. apply sleep_effect in H. right. exact H.
Qed.

(** An accepting predicate lets the [catch] block proceed. *)
Lemma consult_retryIf_accepts error context w (r : Outcome E unit) w' :
  accepts c error context ->
  consult_retryIf c error context w = (r, w') -> r = Ok tt.
Proof.
  unfold accepts, consult_retryIf. destruct (retryIf c) as [p|].
  - intros Hacc. unfold bind, emit, await_start, start, await.
    destruct (Hacc
                (now (record (EvRetryIf error context) w))
                (user (record (EvRetryIf error context) w))) as [d [s Hp]].
    rewrite Hp. simpl. unfold ret. intro H. inversion H. reflexivity.
  - intros _. unfold ret. intro H. inversion H. reflexivity.
Qed.

(** What scheduling a retry adds to the trace. *)
Lemma schedule_retry_summary attempt error left w (r : Outcome E unit) w' :
  schedule_retry c random startTime attempt error left w = (r, w') ->
  exists evs,
    trace w' = trace w ++ evs /\
    count isCall evs = 0%nat /\ failures evs = [] /\
    (count isOnRetry evs <= 1)%nat /\
    (accepted c evs -> onRetry c <> None -> count isOnRetry evs = 1%nat).
Proof.
  unfold schedule_retry, bind at 1, Date_now.
  set (context := mkContext attempt left _ _).
  unfold bind at 1.
  destruct (consult_retryIf c error context w) as [o1 w1] eqn:H1.
  pose proof (consult_retryIf_effect _ _ _ _ _ H1) as T1.
  pose proof (fun Hacc => consult_retryIf_accepts _ _ _ _ _ Hacc H1) as A1.
  destruct o1 as [[]| |].
  2,3: intro H; inversion H; subst;
       (eexists; split; [exact T1|]);
       (assert (Hone : accepted c
                  match retryIf c with
                  | Some _ => [EvRetryIf error context] | None => []
                  end -> accepts c error context)
          by (unfold accepted, accepts; intro Hall;
              destruct (retryIf c) eqn:Hrif; [|exact I];
              exact (Hall error context (or_introl eq_refl))));
       destruct (retryIf c); count_events;
       repeat (split; [first [reflexivity | lia]|]);
       intros Hacc; specialize (A1 (Hone Hacc)); discriminate.
  unfold bind at 1.
  destruct (notify_onRetry c error context w1) as [o2 w2] eqn:H2.
  pose proof (notify_onRetry_effect _ _ _ _ _ H2) as T2.
  assert (Hcount : forall tl : list (Event E),
    count isCall tl = 0%nat -> failures tl = [] ->
    count isOnRetry tl = 0%nat ->
    let evs :=
      (match retryIf c with Some _ => [EvRetryIf error context] | None => [] end
       ++ match onRetry c with Some _ => [EvOnRetry error context] | None => [] end)
      ++ tl in
    count isCall evs = 0%nat /\ failures evs = [] /\
    (count isOnRetry evs <= 1)%nat /\
    (accepted c evs -> onRetry c <> None -> count isOnRetry evs = 1%nat)).
  { intros tl C1 C2 C3 evs. subst evs.
    repeat rewrite failures_app.
    destruct (retryIf c), (onRetry c); count_events; rewrite C1, C2, C3;
      repeat (split; [first [reflexivity | lia]|]);
      intros _ Hn; first [reflexivity | exfalso; apply Hn; reflexivity]. }
  destruct o2 as [[]| |].
  2,3: intro H; inversion H; subst;
       (exists ((match retryIf c with
                 | Some _ => [EvRetryIf error context] | None => [] end
                 ++ match onRetry c with
                    | Some _ => [EvOnRetry error context] | None => [] end)
                ++ []));
       (split; [rewrite T2, T1, app_nil_r, app_assoc; reflexivity|]);
       apply Hcount; reflexivity.
  intro H. apply wait_before_retry_effect in H.
  destruct H as [[H _]|H].
  - exists ((match retryIf c with
             | Some _ => [EvRetryIf error context] | None => [] end
             ++ match onRetry c with
                | Some _ => [EvOnRetry error context] | None => [] end)
            ++ []).
    split; [rewrite H, T2, T1, app_nil_r, app_assoc; reflexivity|].
    apply Hcount; reflexivity.
  - exists ((match retryIf c with
             | Some _ => [EvRetryIf error context] | None => [] end
             ++ match onRetry c with
                | Some _ => [EvOnRetry error context] | None => [] end)
            ++ [EvSleep (delayAfter c random attempt)]).
    split; [rewrite H, T2, T1; repeat rewrite <- app_assoc; reflexivity|].
    apply Hcount; reflexivity.
Qed.

(** What the [catch] block adds to the trace. *)
Lemma on_failure_summary attempt error w (r : Outcome E unit) w' :
  on_failure c random startTime attempt error w = (r, w') ->
  exists evs,
    trace w' = trace w ++ EvFailed attempt error :: evs /\
    count isCall evs = 0%nat /\ failures evs = [] /\
    (count isOnRetry evs <= 1)%nat /\
    (count isOnRetry evs = 1%nat \/ r = Ok tt ->
     retryCount c + 1 - attempt <> 0 /\
     instanceof_AbortError error = false) /\
    (accepted c evs -> onRetry c <> None ->
     retryCount c + 1 - attempt <> 0 ->
     instanceof_AbortError error = false ->
     count isOnRetry evs = 1%nat).
Proof.
  intro H.
  destruct (instanceof_AbortError error) eqn:Ha.
  { rewrite on_failure_abort in H by assumption. inversion H; subst.
    exists []. unfold count. simpl.
    repeat (split; [first [reflexivity | lia]|]).
    split; [intros [F|F]; discriminate|]. intros; discriminate. }
  destruct (Z.eq_dec (retryCount c + 1 - attempt) 0) as [Hl|Hl].
  { rewrite on_failure_final in H by assumption. inversion H; subst.
    exists []. unfold count. simpl.
    repeat (split; [first [reflexivity | lia]|]).
    split; [intros [F|F]; discriminate|]. intros; contradiction. }
  rewrite on_failure_retry in H by assumption.
  apply schedule_retry_summary in H.
  destruct H as [evs [Htr [C1 [C2 [C3 C4]]]]].
  exists evs. simpl in Htr. rewrite <- app_assoc in Htr. simpl in Htr.
  repeat (split; [assumption|]).
  split; [intros _; split; [assumption|reflexivity]|].
  intros Hacc Hn _ _. exact (C4 Hacc Hn).
Qed.

End Iteration.

(** ** The loop as a whole *)

#[local] Arguments Nat.min : simpl never.
#[local] Arguments Nat.sub : simpl never.

Section Run.

Context {T E U : Type} {host : Timers}.
Variable fn : @Operation T E U.
Variable c : @Settings E U.
Variable random : Z -> Q.
Variable startTime : Z.

Implicit Types (w : @World E U) (error e lastError : Thrown E).

Lemma loop_unfold remaining attempt lastError w :
  loop fn c random startTime (S remaining) attempt lastError w =
    match check_head c startTime w with
    | Some e => (Throw e, w)
    | None =>
        match run_attempt fn c attempt w with
        | (Ok v, w1) => (Ok v, w1)
        | (Pending, w1) => (Pending, w1)
        | (Throw error, w1) =>
            match on_failure c random startTime attempt error w1 with
            | (Ok _, w2) =>
                loop fn c random startTime remaining (attempt + 1) error w2
            | (Throw e, w2) => (Throw e, w2)
            | (Pending, w2) => (Pending, w2)
            end
        end
    end.
Proof. reflexivity. Qed.

(** What a run of the loop adds to the trace.  [remaining] and [attempt]
    are tied as in the source: [remaining] iterations are left exactly when
    [attempt <= retries + 1] still holds that many times. *)
Lemma loop_summary remaining :
  forall attempt lastError w (r : Outcome E T) w',
    Z.of_nat remaining = retryCount c + 2 - attempt ->
    loop fn c random startTime remaining attempt lastError w = (r, w') ->
    exists evs,
      trace w' = trace w ++ evs /\
      (count isCall evs <= remaining)%nat /\
      (List.length (failures evs) <= count isCall evs)%nat /\
      (count isOnRetry evs <= List.length (failures evs))%nat /\
      (count isOnRetry evs <= remaining - 1)%nat /\
      (accepted c evs -> onRetry c <> None ->
       Forall (fun e => instanceof_AbortError e = false) (failures evs) ->
       count isOnRetry evs
         = Nat.min (List.length (failures evs)) (remaining - 1)) /\
      (forall P : Thrown E -> Prop,
         Forall P (failures evs) ->
         List.length (failures evs) = remaining -> (0 < remaining)%nat ->
         exists e, r = Throw e /\ P e).
Proof.
  induction remaining as [|k IH]; intros attempt lastError w r w' Hinv H.
  - simpl in H. unfold throw in H. inversion H; subst.
    exists []. rewrite app_nil_r. unfold count. simpl.
    refine (conj _ (conj _ (conj _ (conj _ (conj _ (conj _ _))))));
      intros; first [reflexivity | lia].
  - rewrite loop_unfold in H.
    destruct (check_head c startTime w) as [e0|] eqn:Hh.
    { inversion H; subst.
      exists []. rewrite app_nil_r. unfold count. simpl.
      refine (conj _ (conj _ (conj _ (conj _ (conj _ (conj _ _))))));
        intros; first [reflexivity | lia | discriminate]. }
    apply check_head_not_aborted in Hh.
    destruct (run_attempt fn c attempt w) as [o w1] eqn:Hr.
    pose proof (run_attempt_trace _ _ _ _ _ _ Hh Hr) as T1.
    destruct o as [v|error|].
    1,3: inversion H; subst;
      (exists [EvCall attempt]); unfold count; simpl;
      refine (conj _ (conj _ (conj _ (conj _ (conj _ (conj _ _))))));
      intros; first [exact T1 | reflexivity | lia | discriminate].
    destruct (on_failure c random startTime attempt error w1) as [o2 w2] eqn:Hf.
    pose proof (on_failure_summary _ _ _ _ _ _ _ _ Hf)
      as [evs1 [T2 [C1 [C2 [C3 [C4 C5]]]]]].
    assert (Hlast : k = 0%nat -> retryCount c + 1 - attempt = 0) by lia.
    assert (Hmore : retryCount c + 1 - attempt <> 0 -> (1 <= k)%nat) by lia.
    assert (Hquiet : retryCount c + 1 - attempt = 0 ->
                     count isOnRetry evs1 = 0%nat).
    { intro Hl. destruct (Nat.eq_dec (count isOnRetry evs1) 1) as [F|F]; [|lia].
      exfalso. exact (proj1 (C4 (or_introl F)) Hl). }
    assert (Hstop : o2 <> Ok tt ->
      exists evs,
        trace w2 = trace w ++ evs /\
        (count isCall evs <= S k)%nat /\
        (List.length (failures evs) <= count isCall evs)%nat /\
        (count isOnRetry evs <= List.length (failures evs))%nat /\
        (count isOnRetry evs <= S k - 1)%nat /\
        (accepted c evs -> onRetry c <> None ->
         Forall (fun e => instanceof_AbortError e = false) (failures evs) ->
         count isOnRetry evs
           = Nat.min (List.length (failures evs)) (S k - 1)) /\
        (forall P : Thrown E -> Prop,
           Forall P (failures evs) ->
           List.length (failures evs) = S k ->
           o2 = Throw error /\ P error)).
    { intros Hno.
      exists (EvCall attempt :: EvFailed attempt error :: evs1).
      split.
      { rewrite T2, T1. repeat rewrite <- app_assoc. reflexivity. }
      count_events. rewrite C1, C2. simpl.
      refine (conj _ (conj _ (conj _ (conj _ (conj _ _)))));
        [lia|lia|lia| | |].
      * destruct (Z.eq_dec (retryCount c + 1 - attempt) 0) as [Hl|Hl].
        -- rewrite (Hquiet Hl). lia.
        -- specialize (Hmore Hl). lia.
      * intros Hacc Hn Hall. inversion Hall; subst.
        destruct (Z.eq_dec (retryCount c + 1 - attempt) 0) as [Hl|Hl].
        -- rewrite (Hquiet Hl). assert (k = 0%nat) by lia. subst k.
           reflexivity.
        -- specialize (Hmore Hl).
           apply accepted_cons, accepted_cons in Hacc.
           rewrite (C5 Hacc Hn Hl H2). lia.
      * intros P Hall Hlen. inversion Hall; subst.
        assert (k = 0%nat) by lia.
        rewrite on_failure_final in Hf by auto.
        inversion Hf; subst. split; [reflexivity|assumption]. }
    destruct o2 as [[]|e2|].
    + (* the loop goes on *)
      clear Hstop.
      destruct (C4 (or_intror eq_refl)) as [Hl Ha].
      specialize (Hmore Hl).
      apply IH in H; [|lia].
      destruct H as [evs2 [T3 [D1 [D2 [D3 [D4 [D5 D6]]]]]]].
      exists (EvCall attempt :: EvFailed attempt error :: evs1 ++ evs2).
      split.
      { rewrite T3, T2, T1. repeat rewrite <- app_assoc. reflexivity. }
      count_events. repeat rewrite failures_app. rewrite C1, C2. simpl.
      refine (conj _ (conj _ (conj _ (conj _ (conj _ _)))));
        [lia|lia|lia|lia| |].
      * intros Hacc Hn Hall. inversion Hall; subst.
        apply accepted_cons, accepted_cons, accepted_app in Hacc.
        destruct Hacc as [Hacc1 Hacc2].
        rewrite (C5 Hacc1 Hn Hl Ha), (D5 Hacc2 Hn H2). lia.
      * intros P Hall Hlen Hpos. inversion Hall; subst.
        apply (D6 P H2); lia.
    + (* the catch block throws *)
      inversion H; subst.
      destruct Hstop as [evs [D0 [D1 [D2 [D3 [D4 [D5 D6]]]]]]];
        [discriminate|].
      exists evs.
      refine (conj D0 (conj D1 (conj D2 (conj D3 (conj D4 (conj D5 _)))))).
      intros P Hall Hlen Hpos. destruct (D6 P Hall Hlen) as [Heq HP].
      exists error. split; [congruence|exact HP].
    + (* the catch block never completes *)
      inversion H; subst.
      destruct Hstop as [evs [D0 [D1 [D2 [D3 [D4 [D5 D6]]]]]]];
        [discriminate|].
      exists evs.
      refine (conj D0 (conj D1 (conj D2 (conj D3 (conj D4 (conj D5 _)))))).
      intros P Hall Hlen Hpos. destruct (D6 P Hall Hlen) as [Heq HP].
      discriminate.
Qed.

End Run.

(** ** A whole call of [retry] *)

Section Call.

Context {T E U : Type} {host : Timers}.
Implicit Types (fn : @Operation T E U) (c : @Settings E U)
  (options : @RetryOptions E U) (w : @World E U).

Lemma valid_retryCount c :
  validate c = None ->
  0 <= retryCount c /\ (inject_Z (retryCount c) == retries c)%Q.
Proof.
  unfold validate, retryCount. intro H.
  destruct (Qltb (retries c) 0) eqn:H1; [discriminate|].
  destruct (Number_isInteger (retries c)) eqn:H2; [|discriminate].
  apply Qltb_false_iff in H1.
  unfold Number_isInteger in H2. apply Qeq_bool_iff in H2.
  split; [|exact H2].
  change 0 with (Qfloor 0). apply Qfloor_resp_le. exact H1.
Qed.

Lemma at_most_retries_plus_one (n count : Z) (retries : Q) :
  (inject_Z count == retries)%Q -> n <= count + 1 ->
  (inject_Z n <= retries + 1)%Q.
Proof.
  intros Hint Hle. rewrite <- Hint. change 1%Q with (inject_Z 1).
  rewrite <- inject_Z_plus, <- Zle_Qle. exact Hle.
Qed.

(** With a valid configuration and a quiet signal the first iteration
    passes the checks at its head: no time has passed yet. *)
Lemma first_head_passes c w :
  validate c = None ->
  aborted (signal c) (now w) = false ->
  check_head c (now w) w = None.
Proof.
  unfold validate, check_head, nonPositive. intros H Hq. rewrite Hq.
  destruct (totalTimeout c) as [total|]; [|reflexivity].
  rewrite Z.sub_diag.
  repeat break_match_in H; try discriminate.
  all: change (inject_Z 0) with 0%Q;
    match goal with
    | Hb : Qle_bool ?t 0 = false |- context [Qle_bool ?t 0] =>
        rewrite Hb; reflexivity
    end.
Qed.

Lemma loop_first_call fn c random startTime k attempt
    (lastError : Thrown E) w (r : Outcome E T) w' :
  Z.of_nat (S k) = retryCount c + 2 - attempt ->
  check_head c startTime w = None ->
  loop fn c random startTime (S k) attempt lastError w = (r, w') ->
  exists evs, trace w' = trace w ++ EvCall attempt :: evs.
Proof.
  intros Hinv Hh H. rewrite loop_unfold, Hh in H.
  apply check_head_not_aborted in Hh.
  destruct (run_attempt fn c attempt w) as [o w1] eqn:Hr.
  pose proof (run_attempt_trace _ _ _ _ _ _ Hh Hr) as T1.
  destruct o as [v|error|].
  1,3: inversion H; subst; exists []; exact T1.
  destruct (on_failure c random startTime attempt error w1) as [o2 w2] eqn:Hf.
  pose proof (on_failure_summary _ _ _ _ _ _ _ _ Hf) as [evs1 [T2 _]].
  destruct o2 as [[]|e2|].
  - apply loop_summary in H; [|lia]. destruct H as [evs2 [T3 _]].
    exists (EvFailed attempt error :: evs1 ++ evs2).
    rewrite T3, T2, T1. repeat rewrite <- app_assoc. reflexivity.
  - inversion H; subst. exists (EvFailed attempt error :: evs1).
    rewrite T2, T1. repeat rewrite <- app_assoc. reflexivity.
  - inversion H; subst. exists (EvFailed attempt error :: evs1).
    rewrite T2, T1. repeat rewrite <- app_assoc. reflexivity.
Qed.

(** The two ways a valid call can go: rejected at once because the signal
    is already aborted, or handed to the loop. *)
Lemma retry_valid_cases fn options random w (r : Outcome E T) w' :
  validate (destructure options) = None ->
  retry fn options random w = (r, w') ->
  (aborted (signal (destructure options)) (now w) = true /\
   r = Throw new_AbortError /\ w' = w) \/
  (aborted (signal (destructure options)) (now w) = false /\
   loop fn (destructure options) random (now w)
        (Z.to_nat (retryCount (destructure options) + 1)) 1 Undefined w
     = (r, w')).
Proof.
  intros Hv H. unfold retry in H. rewrite Hv in H.
  destruct (aborted (signal (destructure options)) (now w)) eqn:Ha.
  - left. inversion H; subst. repeat split; reflexivity.
  - right. split; [reflexivity|exact H].
Qed.

(** C1 (amended). With a valid configuration [retry] invokes the operation
    at most retries + 1 times; it invokes it at least once unless the
    cancellation signal is already aborted when [retry] is called, in which
    case the operation is never invoked and the call fails with an
    AbortError. *)
Theorem retry_invocation_bounds fn options random w (r : Outcome E T) w' :
  ~ violatesConstraint (destructure options) ->
  retry fn options random w = (r, w') ->
  exists evs,
    trace w' = trace w ++ evs /\
    (inject_Z (Z.of_nat (invocations evs))
       <= retries (destructure options) + 1)%Q /\
    (aborted (o_signal options) (now w) = false ->
     (1 <= invocations evs)%nat) /\
    (aborted (o_signal options) (now w) = true ->
     invocations evs = 0%nat /\ r = Throw new_AbortError).
Proof.
  intros Hv H. apply validate_None_iff in Hv.
  destruct (valid_retryCount _ Hv) as [Hpos Hint].
  destruct (retry_valid_cases _ _ _ _ _ _ Hv H) as [[Ha [Hr Hw]]|[Ha Hl]].
  - subst. exists []. rewrite app_nil_r. unfold invocations, count. simpl.
    split; [reflexivity|]. split.
    + apply (at_most_retries_plus_one _ _ _ Hint). simpl. lia.
    + simpl in Ha. split; [intro F; congruence|].
      intros _. split; reflexivity.
  - pose proof Hl as Hl'.
    apply loop_summary in Hl; [|lia].
    destruct Hl as [evs [Htr [C1 _]]].
    exists evs. split; [exact Htr|]. split; [|split].
    + apply (at_most_retries_plus_one _ _ _ Hint).
      unfold invocations. lia.
    + intros _.
      destruct (Z.to_nat (retryCount (destructure options) + 1)) as [|k] eqn:Hk;
        [lia|].
      apply loop_first_call in Hl';
        [|lia|apply first_head_passes; assumption].
      destruct Hl' as [evs' Htr'].
      rewrite Htr in Htr'. apply app_inv_head in Htr'. subst evs.
      unfold invocations. rewrite count_cons. simpl. lia.
    + simpl in Ha. intro F. congruence.
Qed.

End Call.

(** ** One iteration, path by path *)

Section Paths.

Context {T E U : Type} {host : Timers}.
Variable fn : @Operation T E U.
Variable c : @Settings E U.
Variable random : Z -> Q.
Variable startTime : Z.

Implicit Types (w : @World E U) (error e lastError : Thrown E)
  (context : RetryContext).

Local Notation "'Loop'" := (loop fn c random startTime).

Lemma schedule_retry_unfold attempt error left w :
  schedule_retry c random startTime attempt error left w =
    let context :=
      mkContext attempt left (now w - startTime) (delayAfter c random attempt) in
    match consult_retryIf c error context w with
    | (Ok _, w1) =>
        match notify_onRetry c error context w1 with
        | (Ok _, w2) =>
            wait_before_retry c startTime (delayAfter c random attempt) w2
        | (Throw e, w2) => (Throw e, w2)
        | (Pending, w2) => (Pending, w2)
        end
    | (Throw e, w1) => (Throw e, w1)
    | (Pending, w1) => (Pending, w1)
    end.
Proof. reflexivity. Qed.

(** The outcome of consulting [retryIf], by what the predicate does. *)
Lemma consult_retryIf_Some error context w p (q : Settled E bool) s :
  retryIf c = Some p ->
  p error context (now w) (user w) = (q, s) ->
  consult_retryIf c error context w =
    let asked := mkWorld (now w) s (trace w ++ [EvRetryIf error context]) in
    match q with
    | Resolves d true => (Ok tt, advance d asked)
    | Resolves d false => (Throw error, advance d asked)
    | Rejects d e => (Throw e, advance d asked)
    | Never => (Pending, asked)
    end.
Proof.
  intros Hp Hq. unfold consult_retryIf. rewrite Hp.
  unfold bind, emit, await_start, start, await. simpl. rewrite Hq.
  destruct q as [d [|]|d e|]; reflexivity.
Qed.

Lemma consult_retryIf_None error context w :
  retryIf c = None -> consult_retryIf c error context w = (Ok tt, w).
Proof. intro Hp. unfold consult_retryIf. rewrite Hp. reflexivity. Qed.

(** The outcome of notifying [onRetry], by what the observer does. *)
Lemma notify_onRetry_Some error context w cb (q : Settled E unit) s :
  onRetry c = Some cb ->
  cb error context (now w) (user w) = (q, s) ->
  notify_onRetry c error context w =
    let told := mkWorld (now w) s (trace w ++ [EvOnRetry error context]) in
    match q with
    | Resolves d _ => (Ok tt, advance d told)
    | Rejects d e => (Throw e, advance d told)
    | Never => (Pending, told)
    end.
Proof.
  intros Hp Hq. unfold notify_onRetry. rewrite Hp.
  unfold bind, emit, await_start, start, await. simpl. rewrite Hq.
  destruct q as [d []|d e|]; reflexivity.
Qed.

(** The iteration when the head checks pass and the attempt fails. *)
Lemma loop_catch remaining attempt lastError w error w1 :
  check_head c startTime w = None ->
  run_attempt fn c attempt w = (Throw error, w1) ->
  Loop (S remaining) attempt lastError w =
    match on_failure c random startTime attempt error w1 with
    | (Ok _, w2) => Loop remaining (attempt + 1) error w2
    | (Throw e, w2) => (Throw e, w2)
    | (Pending, w2) => (Pending, w2)
    end.
Proof. intros Hh Hr. rewrite loop_unfold, Hh, Hr. reflexivity. Qed.

(** The iteration when the failure is to be retried: the [catch] block is
    [schedule_retry] run after the failure is recorded. *)
Lemma loop_retry_path remaining attempt lastError w error w1 :
  check_head c startTime w = None ->
  run_attempt fn c attempt w = (Throw error, w1) ->
  instanceof_AbortError error = false ->
  retryCount c + 1 - attempt <> 0 ->
  Loop (S remaining) attempt lastError w =
    match schedule_retry c random startTime attempt error
            (retryCount c + 1 - attempt) (record (EvFailed attempt error) w1)
    with
    | (Ok _, w2) => Loop remaining (attempt + 1) error w2
    | (Throw e, w2) => (Throw e, w2)
    | (Pending, w2) => (Pending, w2)
    end.
Proof.
  intros Hh Hr Ha Hl. rewrite (loop_catch _ _ _ _ _ _ Hh Hr).
  rewrite on_failure_retry by assumption. reflexivity.
Qed.

(** C7. When an attempt fails with retries remaining and the retryIf
    predicate resolves to false for its error, the call ends at once with
    exactly that error: after the predicate was consulted nothing else
    happens (no onRetry, no delay, no further attempt).  (For an AbortError
    the call ends likewise, the predicate not even being consulted.) *)
Theorem retryIf_false_stops
    remaining attempt lastError w error w1 p d s :
  check_head c startTime w = None ->
  run_attempt fn c attempt w = (Throw error, w1) ->
  retryCount c + 1 - attempt <> 0 ->
  retryIf c = Some p ->
  let context :=
    mkContext attempt (retryCount c + 1 - attempt) (now w1 - startTime)
              (delayAfter c random attempt) in
  p error context (now w1) (user w1) = (Resolves d false, s) ->
  Loop (S remaining) attempt lastError w =
    (Throw error,
     if instanceof_AbortError error
     then record (EvFailed attempt error) w1
     else mkWorld (now w1 + d) s
            (trace w1 ++ [EvFailed attempt error; EvRetryIf error context])).
Proof.
  intros Hh Hr Hl Hp context Hq.
  destruct (instanceof_AbortError error) eqn:Ha.
  { rewrite (loop_catch _ _ _ _ _ _ Hh Hr).
    rewrite on_failure_abort by assumption. reflexivity. }
  rewrite (loop_retry_path _ _ _ _ _ _ Hh Hr Ha Hl).
  rewrite schedule_retry_unfold. cbv zeta.
  change (now (record (EvFailed attempt error) w1)) with (now w1).
  fold context.
  rewrite (consult_retryIf_Some error context
             (record (EvFailed attempt error) w1) p _ s Hp Hq).
  simpl. unfold advance. simpl. rewrite <- app_assoc. reflexivity.
Qed.

(** C10. When retryIf or onRetry itself rejects (or throws) after a failed
    attempt, the call ends at once with the callback's error in place of
    the operation's: after the failing callback nothing else happens (no
    classification of that error, no delay, no further attempt). *)
Theorem callback_failure_propagates
    remaining attempt lastError w error w1 :
  check_head c startTime w = None ->
  run_attempt fn c attempt w = (Throw error, w1) ->
  instanceof_AbortError error = false ->
  retryCount c + 1 - attempt <> 0 ->
  let context :=
    mkContext attempt (retryCount c + 1 - attempt) (now w1 - startTime)
              (delayAfter c random attempt) in
  (forall p d e s,
     retryIf c = Some p ->
     p error context (now w1) (user w1) = (Rejects d e, s) ->
     Loop (S remaining) attempt lastError w =
       (Throw e,
        mkWorld (now w1 + d) s
          (trace w1 ++ [EvFailed attempt error; EvRetryIf error context])))
  /\
  (forall w2 cb d e s,
     consult_retryIf c error context (record (EvFailed attempt error) w1)
       = (Ok tt, w2) ->
     onRetry c = Some cb ->
     cb error context (now w2) (user w2) = (Rejects d e, s) ->
     Loop (S remaining) attempt lastError w =
       (Throw e,
        mkWorld (now w2 + d) s (trace w2 ++ [EvOnRetry error context]))).
Proof.
  intros Hh Hr Ha Hl context. split.
  - intros p d e s Hp Hq.
    rewrite (loop_retry_path _ _ _ _ _ _ Hh Hr Ha Hl).
    rewrite schedule_retry_unfold. cbv zeta.
    change (now (record (EvFailed attempt error) w1)) with (now w1).
    fold context.
    rewrite (consult_retryIf_Some error context
               (record (EvFailed attempt error) w1) p _ s Hp Hq).
    simpl. unfold advance. simpl. rewrite <- app_assoc. reflexivity.
  - intros w2 cb d e s Hc Hp Hq.
    rewrite (loop_retry_path _ _ _ _ _ _ Hh Hr Ha Hl).
    rewrite schedule_retry_unfold. cbv zeta.
    change (now (record (EvFailed attempt error) w1)) with (now w1).
    fold context. rewrite Hc.
    rewrite (notify_onRetry_Some _ _ _ _ _ _ Hp Hq). reflexivity.
Qed.

End Paths.

(** ** Cancellation and time budgets *)

Section Budgets.

Context {T E U : Type} {host : Timers}.
Variable fn : @Operation T E U.
Variable random : Z -> Q.

Implicit Types (c : @Settings E U) (options : @RetryOptions E U)
  (w : @World E U) (error e lastError : Thrown E).



Lemma race_operation_settles (d timer : Z) (a : option Z) :
  d < timer ->
  match a with Some a => d < a | None => True end ->
  race (Some d) timer a = OperationSettled.
Proof.
  intros Hd Ha. unfold race.
  apply Z.ltb_lt in Hd. rewrite Hd.
  destruct a as [a|]; [apply Z.ltb_lt in Ha; rewrite Ha|]; reflexivity.
Qed.


(** Where a total-timeout error can come from. *)
Lemma await_foreign {A : Type} (p : Settled E A) w (e : Thrown E) w' :
  (forall d e', p = Rejects d e' -> isTotalTimeout e' = false) ->
  await p w = (Throw e, w') -> isTotalTimeout e = false.
Proof.
  intros Hp. unfold await. destruct p as [d a|d e'|]; intro H;
    inversion H; subst. apply (Hp d). reflexivity.
Qed.

Lemma run_attempt_foreign c attempt w e w1 :
  caller_errors_foreign fn c ->
  run_attempt fn c attempt w = (Throw e, w1) ->
  isTotalTimeout e = false.
Proof.
  intros [Hfn _] H. unfold run_attempt, withTimeout in H.
  assert (Hc : forall (p : Settled E T) w0 w2,
             call fn attempt w0 = (p, w2) ->
             forall d e', p = Rejects d e' -> isTotalTimeout e' = false).
  { intros p w0 w2. unfold call, start. simpl.
    pose proof (Hfn attempt (now w0) (user w0)) as Hf.
    destruct (fn attempt (now w0) (user w0)) as [p0 s]. simpl in Hf.
    intro Hp. inversion Hp; subst. exact Hf. }
  destruct (attemptTimeout c) as [tm|]; cbv beta in H.
  - destruct (aborted (signal c) (now w)); [inversion H; reflexivity|].
    destruct (call fn attempt w) as [p w2] eqn:Hcall.
    destruct (race _ _ _).
    + eapply await_foreign; [|exact H]. exact (Hc _ _ _ Hcall).
    + inversion H. reflexivity.
    + inversion H. reflexivity.
  - destruct (call fn attempt w) as [p w2] eqn:Hcall.
    eapply await_foreign; [|exact H]. exact (Hc _ _ _ Hcall).
Qed.

Lemma await_start_foreign {A : Type} (cap : @Capability E U A) w
    (e : Thrown E) w' :
  (forall t s d e', fst (cap t s) = Rejects d e' -> isTotalTimeout e' = false) ->
  await_start cap w = (Throw e, w') -> isTotalTimeout e = false.
Proof.
  intros Hk. unfold await_start, start.
  pose proof (Hk (now w) (user w)) as Hf.
  destruct (cap (now w) (user w)) as [p s]. simpl in Hf.
  apply await_foreign. exact Hf.
Qed.

(** A total-timeout error thrown by the [catch] block comes from the check
    made before the delay. *)
Lemma on_failure_total_timeout c startTime attempt error w e w' :
  caller_errors_foreign fn c ->
  isTotalTimeout error = false ->
  on_failure c random startTime attempt error w = (Throw e, w') ->
  isTotalTimeout e = true ->
  check_budget c startTime (delayAfter c random attempt) w' = Some e.
Proof.
  intros [_ [Hp Hcb]] Herr H He.
  destruct (instanceof_AbortError error) eqn:Ha.
  { rewrite on_failure_abort in H by assumption. inversion H; subst.
    congruence. }
  destruct (Z.eq_dec (retryCount c + 1 - attempt) 0) as [Hl|Hl].
  { rewrite on_failure_final in H by assumption. inversion H; subst.
    congruence. }
  rewrite on_failure_retry in H by assumption.
  rewrite schedule_retry_unfold in H. cbv zeta in H.
  set (context := mkContext attempt _ _ _) in H.
  set (wf := record (EvFailed attempt error) w) in H.
  destruct (consult_retryIf c error context wf) as [o1 w1] eqn:E1.
  destruct o1 as [[]|e1|]; [| |discriminate].
  2:{ inversion H; subst. exfalso.
      unfold consult_retryIf in E1. destruct (retryIf c) as [p|] eqn:Hr;
        [|discriminate].
      unfold bind, emit in E1.
      destruct (await_start (p error context)
                  (record (EvRetryIf error context) wf)) as [o wa] eqn:Hs.
      destruct o as [[|]|e0|]; unfold throw, ret in E1;
        inversion E1; subst; try congruence.
      apply await_start_foreign in Hs; [congruence|].
      intros. eapply (Hp p eq_refl). eassumption. }
  destruct (notify_onRetry c error context w1) as [o2 w2] eqn:E2.
  destruct o2 as [[]|e2|]; [| |discriminate].
  2:{ inversion H; subst. exfalso.
      unfold notify_onRetry in E2. destruct (onRetry c) as [cb|] eqn:Hr;
        [|discriminate].
      unfold bind, emit in E2.
      apply await_start_foreign in E2; [congruence|].
      intros. eapply (Hcb cb eq_refl). eassumption. }
  unfold wait_before_retry in H.
  destruct (check_budget c startTime (delayAfter c random attempt) w2)
    as [timeout|] eqn:Hb.
  - inversion H; subst. exact Hb.
  - exfalso. unfold bind, emit, sleep in H.
    repeat break_match_in H; inversion H; subst; discriminate.
Qed.

(** A total-timeout error that ends the loop was raised by one of the two
    checks, in the world in which the loop ends. *)
Lemma total_timeout_only_from_checks c startTime remaining :
  forall attempt lastError w e w',
    caller_errors_foreign fn c ->
    isTotalTimeout lastError = false ->
    loop fn c random startTime remaining attempt lastError w = (Throw e, w') ->
    isTotalTimeout e = true ->
    check_head c startTime w' = Some e \/
    exists a, check_budget c startTime (delayAfter c random a) w' = Some e.
Proof.
  induction remaining as [|k IH]; intros attempt lastError w e w' Hf Hle H He.
  - simpl in H. unfold throw in H. inversion H; subst. congruence.
  - rewrite loop_unfold in H.
    destruct (check_head c startTime w) as [e0|] eqn:Hh.
    { inversion H; subst. left. exact Hh. }
    destruct (run_attempt fn c attempt w) as [o w1] eqn:Hr.
    destruct o as [v|error|]; try discriminate.
    pose proof (run_attempt_foreign _ _ _ _ _ Hf Hr) as Herr.
    destruct (on_failure c random startTime attempt error w1) as [o2 w2] eqn:Ho.
    destruct o2 as [[]|e2|]; try discriminate.
    + exact (IH _ _ _ _ _ Hf Herr H He).
    + inversion H; subst. right. exists attempt.
      exact (on_failure_total_timeout _ _ _ _ _ _ _ Hf Herr Ho He).
Qed.

(** C4. The loop raises a total-timeout TimeoutError exactly at two
    places: at the head of an iteration, when the elapsed time has reached
    totalTimeout, and before the delay that follows a failure to be
    retried, when elapsed + nextDelay exceeds totalTimeout.  Either one ends
    the call on the spot: the world is left as it was at the check, so
    there is no further attempt, no delay and no consultation of retryIf.
    When the second check passes, the delay starts.  Conversely, unless the
    caller's own code rejects with a look-alike error, a call that ends with
    a total-timeout error ends at one of the two checks. *)
Theorem total_timeout_exactly_when c startTime w total nextDelay :
  (check_head c startTime w = Some (TimeoutError (TotalTimeoutExceeded total))
   <-> totalTimeout c = Some total /\
       (total <= inject_Z (now w - startTime))%Q)
  /\
  (check_budget c startTime nextDelay w
     = Some (TimeoutError (TotalTimeoutWouldBeExceeded total))
   <-> totalTimeout c = Some total /\
       (total < inject_Z (now w - startTime) + inject_Z nextDelay)%Q)
  /\
  (forall remaining attempt lastError e,
     check_head c startTime w = Some e ->
     loop fn c random startTime (S remaining) attempt lastError w
       = (Throw e, w))
  /\
  (forall remaining attempt lastError w0 error w1 e,
     check_head c startTime w0 = None ->
     run_attempt fn c attempt w0 = (Throw error, w1) ->
     instanceof_AbortError error = false ->
     retryCount c + 1 - attempt <> 0 ->
     let context :=
       mkContext attempt (retryCount c + 1 - attempt) (now w1 - startTime)
                 (delayAfter c random attempt) in
     bind (consult_retryIf c error context)
          (fun _ => notify_onRetry c error context)
          (record (EvFailed attempt error) w1) = (Ok tt, w) ->
     check_budget c startTime (delayAfter c random attempt) w = Some e ->
     loop fn c random startTime (S remaining) attempt lastError w0
       = (Throw e, w))
  /\
  (check_budget c startTime nextDelay w = None ->
   wait_before_retry c startTime nextDelay w
     = sleep nextDelay (signal c) (record (EvSleep nextDelay) w))
  /\
  (forall remaining attempt lastError w0 e,
     caller_errors_foreign fn c ->
     isTotalTimeout lastError = false ->
     loop fn c random startTime remaining attempt lastError w0 = (Throw e, w) ->
     isTotalTimeout e = true ->
     check_head c startTime w = Some e \/
     exists a, check_budget c startTime (delayAfter c random a) w = Some e).
Proof.
  refine (conj _ (conj _ (conj _ (conj _ (conj _ _))))).
  - unfold check_head. split.
    + destruct (totalTimeout c) as [t|].
      * destruct (Qle_bool t (inject_Z (now w - startTime))) eqn:Hb.
        -- intro H. inversion H; subst. split; [reflexivity|].
           apply Qle_bool_iff. exact Hb.
        -- destruct (aborted (signal c) (now w)); discriminate.
      * destruct (aborted (signal c) (now w)); discriminate.
    + intros [Ht Hle]. rewrite Ht. apply Qle_bool_iff in Hle.
      rewrite Hle. reflexivity.
  - unfold check_budget. split.
    + destruct (totalTimeout c) as [t|]; [|discriminate].
      destruct (Qltb (t - inject_Z (now w - startTime)) (inject_Z nextDelay))
        eqn:Hb; [|discriminate].
      intro H. inversion H; subst. split; [reflexivity|].
      apply Qltb_true_iff in Hb.
      generalize dependent (inject_Z (now w - startTime)).
      generalize (inject_Z nextDelay). intros y x Hb. lra.
    + intros [Ht Hlt]. rewrite Ht.
      assert (Hb : Qltb (total - inject_Z (now w - startTime))
                        (inject_Z nextDelay) = true).
      { apply Qltb_true_iff. revert Hlt.
        generalize (inject_Z (now w - startTime)).
        generalize (inject_Z nextDelay). intros y x Hlt. lra. }
      rewrite Hb. reflexivity.
  - intros remaining attempt lastError e Hh.
    rewrite loop_unfold, Hh. reflexivity.
  - intros remaining attempt lastError w0 error w1 e Hh Hr Ha Hl context
      Hcb Hb.
    rewrite (loop_retry_path _ _ _ _ _ _ _ _ _ _ Hh Hr Ha Hl).
    rewrite schedule_retry_unfold. cbv zeta.
    change (now (record (EvFailed attempt error) w1)) with (now w1).
    fold context. unfold bind in Hcb.
    destruct (consult_retryIf c error context
                (record (EvFailed attempt error) w1)) as [[[]| |] wa];
      try discriminate.
    rewrite Hcb. unfold wait_before_retry. rewrite Hb. reflexivity.
  - intro Hb. unfold wait_before_retry. rewrite Hb. reflexivity.
  - intros remaining attempt lastError w0 e.
    apply total_timeout_only_from_checks.
Qed.












End Budgets.

(** ** The caller's state along a run *)

Section UserState.

Context {T E U L : Type} {host : Timers}.
Variable fn : @Operation T E U.
Variable c : @Settings E U.
Variable random : Z -> Q.
Variable startTime : Z.

(** Something observed on the caller's state ([obs]) that every call of
    the operation changes by [tick] and that the callbacks leave alone. *)
Variable obs : U -> L.
Variable tick : L -> L.
Hypothesis fn_ticks :
  forall attempt t s, obs (snd (fn attempt t s)) = tick (obs s).
Hypothesis callbacks_keep : callbacks_preserve obs c.

Implicit Types (w : @World E U) (error e lastError : Thrown E).

Lemma call_user attempt w (p : Settled E T) w1 :
  call fn attempt w = (p, w1) -> obs (user w1) = tick (obs (user w)).
Proof.
  unfold call, start. simpl.
  pose proof (fn_ticks attempt (now w) (user w)) as Ht.
  destruct (fn attempt (now w) (user w)) as [p0 s].
  intro Hp. inversion Hp; subst. exact Ht.
Qed.

Lemma run_attempt_user attempt w (r : Outcome E T) w' :
  aborted (signal c) (now w) = false ->
  run_attempt fn c attempt w = (r, w') ->
  obs (user w') = tick (obs (user w)).
Proof.
  intros Hq H. unfold run_attempt, withTimeout, await in H.
  destruct (attemptTimeout c); cbv beta in H; try rewrite Hq in H;
    destruct (call fn attempt w) as [p w1] eqn:Hcall;
    apply call_user in Hcall;
    repeat break_match_in H; inversion H; subst; exact Hcall.
Qed.

Lemma await_start_user {A : Type} (cap : Capability A) w
    (r : Outcome E A) w' :
  (forall t s, obs (snd (cap t s)) = obs s) ->
  await_start cap w = (r, w') -> obs (user w') = obs (user w).
Proof.
  intros Hk. unfold await_start, start, await.
  pose proof (Hk (now w) (user w)) as Ht.
  destruct (cap (now w) (user w)) as [p s].
  destruct p; intro H; inversion H; subst; exact Ht.
Qed.

Lemma schedule_retry_user attempt error left w (r : Outcome E unit) w' :
  schedule_retry c random startTime attempt error left w = (r, w') ->
  obs (user w') = obs (user w).
Proof.
  destruct callbacks_keep as [Hp Hcb].
  rewrite schedule_retry_unfold. cbv zeta.
  set (context := mkContext attempt left _ _).
  assert (H1 : forall wa (r1 : Outcome E unit) wb,
             consult_retryIf c error context wa = (r1, wb) ->
             obs (user wb) = obs (user wa)).
  { intros wa r1 wb. unfold consult_retryIf.
    destruct (retryIf c) as [p|] eqn:Hr.
    - unfold bind, emit.
      destruct (await_start (p error context)
                  (record (EvRetryIf error context) wa)) as [o wc] eqn:Hs.
      apply await_start_user in Hs; [|intros; apply (Hp p eq_refl)].
      destruct o as [[|]| |]; unfold throw, ret;
        intro H; inversion H; subst; exact Hs.
    - unfold ret. intro H. inversion H; subst. reflexivity. }
  assert (H2 : forall wa (r1 : Outcome E unit) wb,
             notify_onRetry c error context wa = (r1, wb) ->
             obs (user wb) = obs (user wa)).
  { intros wa r1 wb. unfold notify_onRetry.
    destruct (onRetry c) as [cb|] eqn:Hr.
    - unfold bind, emit. intro H.
      apply await_start_user in H; [|intros; apply (Hcb cb eq_refl)].
      exact H.
    - unfold ret. intro H. inversion H; subst. reflexivity. }
  assert (H3 : forall d wa (r1 : Outcome E unit) wb,
             wait_before_retry c startTime d wa = (r1, wb) ->
             obs (user wb) = obs (user wa)).
  { intros d wa r1 wb. unfold wait_before_retry, bind, emit, sleep.
    intro H. repeat break_match_in H; inversion H; subst; reflexivity. }
  destruct (consult_retryIf c error context w) as [o1 w1] eqn:E1.
  apply H1 in E1.
  destruct o1 as [[]| |]; try (intro H; inversion H; subst; exact E1).
  destruct (notify_onRetry c error context w1) as [o2 w2] eqn:E2.
  apply H2 in E2.
  destruct o2 as [[]| |];
    try (intro H; inversion H; subst; congruence).
  intro H. apply H3 in H. congruence.
Qed.

Lemma on_failure_user attempt error w (r : Outcome E unit) w' :
  on_failure c random startTime attempt error w = (r, w') ->
  obs (user w') = obs (user w).
Proof.
  unfold on_failure, bind, emit.
  destruct (instanceof_AbortError error).
  { unfold throw. intro H. inversion H; subst. reflexivity. }
  destruct (retryCount c + 1 - attempt =? 0).
  { unfold throw. intro H. inversion H; subst. reflexivity. }
  intro H. apply schedule_retry_user in H. exact H.
Qed.

(** Along a run the observation is ticked once per call of the operation. *)
Lemma loop_user remaining :
  forall attempt lastError w (r : Outcome E T) w',
    loop fn c random startTime remaining attempt lastError w = (r, w') ->
    exists evs,
      trace w' = trace w ++ evs /\
      obs (user w') = Nat.iter (count isCall evs) tick (obs (user w)).
Proof.
  induction remaining as [|k IH]; intros attempt lastError w r w' H.
  - simpl in H. unfold throw in H. inversion H; subst.
    exists []. rewrite app_nil_r. split; reflexivity.
  - rewrite loop_unfold in H.
    destruct (check_head c startTime w) as [e0|] eqn:Hh.
    { inversion H; subst. exists []. rewrite app_nil_r. split; reflexivity. }
    apply check_head_not_aborted in Hh.
    destruct (run_attempt fn c attempt w) as [o w1] eqn:Hr.
    pose proof (run_attempt_trace _ _ _ _ _ _ Hh Hr) as T1.
    pose proof (run_attempt_user _ _ _ _ Hh Hr) as U1.
    destruct o as [v|error|].
    1,3: inversion H; subst; exists [EvCall attempt];
      (split; [exact T1|exact U1]).
    destruct (on_failure c random startTime attempt error w1) as [o2 w2] eqn:Hf.
    pose proof (on_failure_summary _ _ _ _ _ _ _ _ Hf)
      as [evs1 [T2 [C1 _]]].
    pose proof (on_failure_user _ _ _ _ _ Hf) as U2.
    destruct o2 as [[]|e2|].
    + apply IH in H. destruct H as [evs2 [T3 U3]].
      exists (EvCall attempt :: EvFailed attempt error :: evs1 ++ evs2).
      split.
      { rewrite T3, T2, T1. repeat rewrite <- app_assoc. reflexivity. }
      count_events. rewrite C1. simpl.
      rewrite U3, U2, U1. apply Nat.iter_swap.
    + inversion H; subst.
      exists (EvCall attempt :: EvFailed attempt error :: evs1).
      split.
      { rewrite T2, T1. repeat rewrite <- app_assoc. reflexivity. }
      count_events. rewrite C1. simpl. congruence.
    + inversion H; subst.
      exists (EvCall attempt :: EvFailed attempt error :: evs1).
      split.
      { rewrite T2, T1. repeat rewrite <- app_assoc. reflexivity. }
      count_events. rewrite C1. simpl. congruence.
Qed.

End UserState.

(** ** retryable *)

Section Wrapper.

Context {T E U Args : Type} {host : Timers}.

Lemma iter_note (args : Args) (n : nat) (log : list Args) :
  Nat.iter n (fun l => l ++ [args]) log = log ++ repeat args n.
Proof.
  induction n as [|n IH]; simpl.
  - rewrite app_nil_r. reflexivity.
  - rewrite IH. rewrite <- app_assoc. f_equal.
    clear IH. induction n as [|n IHn]; simpl; [reflexivity|].
    f_equal. exact IHn.
Qed.

(** C9. The wrapper returned by [retryable fn options], called with
    [args], is the call [retry (() => fn(...args)) options]: same outcome,
    same final world (time, caller state, trace of invocations).  Every
    invocation made by the loop passes [args] on: an operation that notes
    the arguments it receives ends with one more copy of [args] per
    invocation, provided the callbacks leave its notes alone. *)
Theorem retryable_round_trip
    (fn : Args -> @Capability E U T) (options : @RetryOptions E U)
    (args : Args) (random : Z -> Q) :
  (forall w,
     retryable fn options args random w
       = retry (fun _ => fn args) options random w)
  /\
  (forall (noting : @RetryOptions E (U * list Args)) w (r : Outcome E T) w',
     callbacks_preserve snd (destructure noting) ->
     retryable (spy fn) noting args random w = (r, w') ->
     exists evs,
       trace w' = trace w ++ evs /\
       snd (user w') = snd (user w) ++ repeat args (invocations evs)).
Proof.
  split; [reflexivity|].
  intros noting w r w' Hk H. unfold retryable, retry in H.
  destruct (validate (destructure noting)).
  { inversion H; subst. exists []. simpl. rewrite !app_nil_r.
    split; reflexivity. }
  destruct (aborted (signal (destructure noting)) (now w)).
  { inversion H; subst. exists []. simpl. rewrite !app_nil_r.
    split; reflexivity. }
  apply (loop_user _ _ _ _ snd (fun l => l ++ [args])) in H.
  - destruct H as [evs [Htr Hu]]. exists evs. split; [exact Htr|].
    rewrite Hu. apply iter_note.
  - intros attempt t [s log]. unfold spy. simpl.
    destruct (fn args t s). reflexivity.
  - exact Hk.
Qed.

End Wrapper.

(** * The properties on the sample callers *)

(** The signal is already aborted: the configuration is valid and the
    operation is never invoked. *)
Lemma retry_skips_operation_when_already_aborted :
  ~ violatesConstraint (destructure alreadyAborted) /\
  invocations
    (trace (snd (retry (createFailingFn 10 "never") alreadyAborted
                       noJitter world0))) = 0%nat.
Proof.
  split; [apply validate_None_iff|]; reflexivity.
Qed.

Lemma retry_invocation_bounds_witness :
  exists evs,
    trace (snd (retry (createFailingFn 10 "never") (quick 2) noJitter world0))
      = trace world0 ++ evs /\
    (inject_Z (Z.of_nat (invocations evs))
       <= retries (destructure (quick 2)) + 1)%Q /\
    (aborted (o_signal (quick 2)) (now world0) = false ->
     (1 <= invocations evs)%nat) /\
    (aborted (o_signal (quick 2)) (now world0) = true ->
     invocations evs = 0%nat /\
     fst (retry (createFailingFn 10 "never") (quick 2) noJitter world0)
       = Throw new_AbortError).
Proof.
  apply (retry_invocation_bounds (createFailingFn 10 "never") (quick 2)
           noJitter world0).
  - apply validate_None_iff. reflexivity.
  - vm_compute. reflexivity.
Defined.

(** A call with [retries: -1] does not throw: it returns a promise, which
    is rejected with the TypeError. *)
Lemma invalid_configuration_is_not_thrown :
  violatesConstraint (destructure (quick (-1))) /\
  async (retry (createFailingFn 0 "x") (quick (-1)) noJitter) world0
    = Normal
        (Rejects 0 (TypeError "retries must be a non-negative integer")) /\
  ~ exists e : Thrown nat,
      async (retry (createFailingFn 0 "x") (quick (-1)) noJitter) world0
        = Abrupt e.
Proof.
  split; [left; reflexivity|]. split; [reflexivity|].
  intros [e He]. discriminate He.
Qed.

Lemma invalid_configuration_fails_fast_witness :
  exists e : Thrown nat,
    instanceof_TypeError e = true /\
    retry (createFailingFn 0 "x") (quick (-1)) noJitter world0
      = (Throw e, world0) /\
    async (retry (createFailingFn 0 "x") (quick (-1)) noJitter) world0
      = Normal (Rejects 0 e).
Proof.
  apply (invalid_configuration_fails_fast (createFailingFn 0 "x")
           (quick (-1)) noJitter world0).
  left. reflexivity.
Defined.

(** retryIf rejects the first failure: one failed attempt, three retries
    allowed, and the observer is not invoked at all. *)
Lemma onRetry_skipped_when_retryIf_rejects :
  let tr :=
    trace (snd (retry (createFailingFn 10 "never")
                      (withCallbacks (Some neverRetry) (Some silentObserver))
                      noJitter world0)) in
  ~ violatesConstraint
      (destructure (withCallbacks (Some neverRetry) (Some silentObserver))) /\
  failedAttempts tr = 1%nat /\
  onRetryCalls tr = 0%nat /\
  onRetryCalls tr <> Nat.min (failedAttempts tr) 3.
Proof.
  split; [apply validate_None_iff; reflexivity|].
  split; [reflexivity|]. split; [reflexivity|].
  vm_compute. discriminate.
Qed.



Lemma total_timeout_exactly_when_witness :
  let c := destructure tightBudget in
  let w2 :=
    mkWorld 10 1%nat [EvCall 1; EvFailed 1 (Other 1%nat); EvSleep 10] in
  loop (createFailingFn 10 "never") c noJitter 0 1 2 (Other 1%nat) w2
    = (Throw (TimeoutError (TotalTimeoutExceeded 10)), w2).
Proof.
  intros c w2.
  pose proof (total_timeout_exactly_when (createFailingFn 10 "never")
                noJitter c 0 w2 10%Q 0) as [Hhead [_ [Hstop _]]].
  apply Hstop. apply Hhead. split; [reflexivity|]. vm_compute. discriminate.
Defined.

Lemma retryIf_false_stops_witness :
  let c := destructure (withCallbacks (Some neverRetry) (Some silentObserver)) in
  loop (createFailingFn 10 "never") c noJitter 0 4 1 Undefined world0
    = (Throw (Other 1%nat),
       mkWorld 0 1%nat
         [EvCall 1; EvFailed 1 (Other 1%nat);
          EvRetryIf (Other 1%nat) (mkContext 1 3 0 10)]).
Proof.
  intro c.
  apply (retryIf_false_stops (createFailingFn 10 "never") c noJitter 0
           3%nat 1 Undefined world0 (Other 1%nat)
           (mkWorld 0 1%nat [EvCall 1]) neverRetry 0 1%nat);
    first [reflexivity | intro F; vm_compute in F; discriminate].
Defined.

Lemma callback_failure_propagates_witness :
  loop (createFailingFn 10 "never")
       (destructure (withCallbacks (Some brokenPredicate) None))
       noJitter 0 4 1 Undefined world0
    = (Throw (Other 99%nat),
       mkWorld 0 1%nat
         [EvCall 1; EvFailed 1 (Other 1%nat);
          EvRetryIf (Other 1%nat) (mkContext 1 3 0 10)]) /\
  loop (createFailingFn 10 "never")
       (destructure (withCallbacks None (Some brokenObserver)))
       noJitter 0 4 1 Undefined world0
    = (Throw (Other 98%nat),
       mkWorld 0 1%nat
         [EvCall 1; EvFailed 1 (Other 1%nat);
          EvOnRetry (Other 1%nat) (mkContext 1 3 0 10)]).
Proof.
  split.
  - refine (proj1 (callback_failure_propagates (createFailingFn 10 "never")
                     (destructure (withCallbacks (Some brokenPredicate) None))
                     noJitter 0 3%nat 1 Undefined world0 (Other 1%nat)
                     (mkWorld 0 1%nat [EvCall 1]) _ _ _ _)
                  brokenPredicate 0 (Other 99%nat) 1%nat _ _);
      first [reflexivity | intro F; vm_compute in F; discriminate].
  - refine (proj2 (callback_failure_propagates (createFailingFn 10 "never")
                     (destructure (withCallbacks None (Some brokenObserver)))
                     noJitter 0 3%nat 1 Undefined world0 (Other 1%nat)
                     (mkWorld 0 1%nat [EvCall 1]) _ _ _ _)
                  (mkWorld 0 1%nat [EvCall 1; EvFailed 1 (Other 1%nat)])
                  brokenObserver 0 (Other 98%nat) 1%nat _ _ _);
      first [reflexivity | intro F; vm_compute in F; discriminate].
Defined.

Lemma retryable_round_trip_witness :
  let run :=
    retryable (spy (flakySum 2)) quickNoting (2, 3) noJitter
              (mkWorld 0 (0%nat, []) []) in
  exists evs,
    trace (snd run) = [] ++ evs /\
    snd (user (snd run)) = [] ++ repeat (2, 3) (invocations evs).
Proof.
  intro run.
  apply (proj2 (retryable_round_trip (flakySum 2) (quick 3) (2, 3) noJitter)
               quickNoting (mkWorld 0 (0%nat, []) []) (fst run) (snd run)).
  - split; intros f Hf; discriminate Hf.
  - vm_compute. reflexivity.
Defined.

(** * Further properties of the code *)

(** ** sleep and withTimeout *)

Section Racing.

Context {T E U : Type} {host : Timers}.
Implicit Types (w : @World E U) (fn : @Operation T E U).

(** How a race can end. *)
Lemma race_OperationSettled (d : option Z) (timer : Z) (a : option Z) :
  race d timer a = OperationSettled ->
  exists d', d = Some d' /\ d' < timer /\
             match a with Some a => d' < a | None => True end.
Proof.
  unfold race. destruct d as [d|]; simpl.
  - destruct (d <? timer) eqn:Hd; simpl.
    + destruct a as [a|].
      * destruct (d <? a) eqn:Ha.
        -- intros _. exists d. apply Z.ltb_lt in Hd, Ha. auto.
        -- destruct (a <=? timer); discriminate.
      * intros _. exists d. apply Z.ltb_lt in Hd. auto.
    + destruct a as [a|]; [destruct (a <=? timer)|]; discriminate.
  - destruct a as [a|]; [destruct (a <=? timer)|]; discriminate.
Qed.

Lemma race_SignalAborted (d : option Z) (timer : Z) (a : option Z) :
  race d timer a = SignalAborted ->
  exists a', a = Some a' /\ a' <= timer /\
             match d with Some d => a' <= d | None => True end.
Proof.
  unfold race. destruct a as [a|].
  - destruct (a <=? timer) eqn:Ha.
    + apply Z.leb_le in Ha. destruct d as [d|]; simpl.
      * destruct (d <? timer) eqn:Hd; simpl.
        -- destruct (d <? a) eqn:Hda; [discriminate|].
           apply Z.ltb_ge in Hda. intros _. exists a. auto.
        -- apply Z.ltb_ge in Hd. intros _. exists a.
           repeat split; [exact Ha|lia].
      * intros _. exists a. auto.
    + destruct d as [d|]; simpl;
        [destruct (d <? timer), (d <? a)|]; discriminate.
  - destruct d as [d|]; simpl; [destruct (d <? timer)|]; discriminate.
Qed.

Lemma race_TimerFired (d : option Z) (timer : Z) (a : option Z) :
  race d timer a = TimerFired ->
  match d with Some d => timer <= d | None => True end /\
  match a with Some a => timer < a | None => True end.
Proof.
  unfold race. destruct d as [d|]; simpl.
  - destruct (d <? timer) eqn:Hd; simpl.
    + apply Z.ltb_lt in Hd. destruct a as [a|]; [|discriminate].
      destruct (d <? a) eqn:Hda; [discriminate|].
      apply Z.ltb_ge in Hda.
      destruct (a <=? timer) eqn:Ha; [discriminate|].
      apply Z.leb_gt in Ha. lia.
    + apply Z.ltb_ge in Hd. destruct a as [a|]; [|auto].
      destruct (a <=? timer) eqn:Ha; [discriminate|].
      apply Z.leb_gt in Ha. auto.
  - destruct a as [a|]; [|auto].
    destruct (a <=? timer) eqn:Ha; [discriminate|].
    apply Z.leb_gt in Ha. auto.
Qed.

Lemma setTimeout_not_before (ms : Q) w : now w <= setTimeout ms w.
Proof. unfold setTimeout. lia. Qed.

(** X4. [withTimeout] always settles, whatever the operation does, and no
    later than the instant at which its timer fires.  It rejects only with
    an AbortError, with the attempt-timeout TimeoutError, or with the
    operation's own error; it resolves only with a value the operation
    produced before the timer fired. *)
Theorem withTimeout_always_settles
    fn (attempt : Z) (tm : Q) (signal : option AbortSignal)
    w (r : Outcome E T) w' :
  withTimeout (call fn attempt) tm signal w = (r, w') ->
  r <> Pending /\
  now w' <= setTimeout tm w /\
  (forall e, r = Throw e ->
     e = new_AbortError \/ e = TimeoutError (AttemptTimedOutAfter tm) \/
     exists d, fst (fn attempt (now w) (user w)) = Rejects d e) /\
  (forall v, r = Ok v ->
     exists d, fst (fn attempt (now w) (user w)) = Resolves d v /\
               now w + d <= setTimeout tm w).
Proof.
  unfold withTimeout.
  pose proof (setTimeout_not_before tm w) as Hfire.
  destruct (aborted signal (now w)).
  { intro H. inversion H; subst.
    split; [discriminate|]. split; [exact Hfire|]. split.
    - intros e He. inversion He. left. reflexivity.
    - intros v Hv. discriminate. }
  unfold call, start. cbn [now user record].
  destruct (fn attempt (now w) (user w)) as [p s] eqn:Hfn.
  cbn [fst].
  destruct (race (settleTime p) (setTimeout tm w - now w)
              (option_map (fun a => a - now w) (abortTime signal)))
    eqn:Hrace.
  - apply race_OperationSettled in Hrace.
    destruct Hrace as [d [Hd [Hlt _]]].
    destruct p as [d0 v|d0 e0|]; simpl in Hd; inversion Hd; subst d0;
      unfold await, advance, with_user; cbn [now];
      intro H; inversion H; subst; cbn [now].
    + split; [discriminate|]. split; [lia|]. split.
      * intros e He. discriminate.
      * intros v0 Hv. inversion Hv; subst. exists d.
        split; [reflexivity|lia].
    + split; [discriminate|]. split; [lia|]. split.
      * intros e He. inversion He; subst. right. right. exists d.
        reflexivity.
      * intros v0 Hv. discriminate.
  - apply race_SignalAborted in Hrace.
    destruct Hrace as [a [Ha [Hle _]]].
    destruct (abortTime signal) as [a0|]; simpl in Ha; inversion Ha; subst.
    intro H. inversion H; subst. cbn [now at_time].
    split; [discriminate|]. split; [lia|]. split.
    + intros e He. inversion He. left. reflexivity.
    + intros v Hv. discriminate.
  - intro H. inversion H; subst. cbn [now at_time].
    split; [discriminate|]. split; [lia|]. split.
    + intros e He. inversion He. right. left. reflexivity.
    + intros v Hv. discriminate.
Qed.

(** X5. An operation that settles strictly before the timer of
    [withTimeout] fires, with the signal quiet until then, is not affected
    by [withTimeout]: the wrapped call has the outcome and the effects of
    awaiting the operation directly. *)
Theorem withTimeout_transparent
    fn (attempt : Z) (tm : Q) (signal : option AbortSignal)
    w (p : Settled E T) w1 (d : Z) :
  aborted signal (now w) = false ->
  call fn attempt w = (p, w1) ->
  settleTime p = Some d ->
  now w + d < setTimeout tm w ->
  (forall a, abortTime signal = Some a -> now w + d < a) ->
  withTimeout (call fn attempt) tm signal w = await p w1.
Proof.
  intros Hq Hc Hs Hd Ha. unfold withTimeout. rewrite Hq, Hc, Hs.
  rewrite race_operation_settles; [reflexivity|lia|].
  destruct (abortTime signal) as [a|]; simpl; [|exact I].
  specialize (Ha a eq_refl). lia.
Qed.

End Racing.

(** ** The shape of a run *)

Section ShapeOfRun.

Context {T E U : Type} {host : Timers}.
Variable fn : @Operation T E U.
Variable c : @Settings E U.
Variable random : Z -> Q.
Variable startTime : Z.

Implicit Types (w : @World E U) (error e lastError : Thrown E).

Lemma check_head_cases w e :
  check_head c startTime w = Some e ->
  (exists total, totalTimeout c = Some total /\
                 e = TimeoutError (TotalTimeoutExceeded total)) \/
  (exists t, signal c = Some (AbortedAt t) /\ e = new_AbortError).
Proof.
  unfold check_head, aborted.
  destruct (totalTimeout c) as [total|].
  - destruct (Qle_bool total (inject_Z (now w - startTime))).
    + intro H. inversion H. left. exists total. split; reflexivity.
    + destruct (signal c) as [[|t]|]; try discriminate.
      destruct (t <=? now w); [|discriminate].
      intro H. inversion H. right. exists t. split; reflexivity.
  - destruct (signal c) as [[|t]|]; try discriminate.
    destruct (t <=? now w); [|discriminate].
    intro H. inversion H. right. exists t. split; reflexivity.
Qed.

(** Only an attempt without [attemptTimeout] can stay pending. *)
Lemma run_attempt_pending attempt w w1 :
  run_attempt fn c attempt w = (Pending, w1) -> attemptTimeout c = None.
Proof.
  unfold run_attempt, withTimeout.
  destruct (attemptTimeout c) as [tm|]; [|reflexivity].
  destruct (aborted (signal c) (now w)); [discriminate|].
  destruct (call fn attempt w) as [p w2].
  unfold race.
  destruct p as [d v|d e0|]; simpl;
    repeat match goal with
           | |- context [if ?b then _ else _] => destruct b
           | |- context [match ?x with Some _ => _ | None => _ end] =>
               destruct x
           end; simpl; discriminate.
Qed.

Lemma consult_retryIf_shape error context w (r : Outcome E unit) w' :
  consult_retryIf c error context w = (r, w') ->
  trace w' = trace w ++ asked c error context /\
  (r = Ok tt \/ retryIf c <> None).
Proof.
  intro H. split; [exact (consult_retryIf_effect _ _ _ _ _ _ H)|].
  unfold consult_retryIf in H. destruct (retryIf c).
  - right. discriminate.
  - left. unfold ret in H. inversion H. reflexivity.
Qed.

Lemma notify_onRetry_shape error context w (r : Outcome E unit) w' :
  notify_onRetry c error context w = (r, w') ->
  trace w' = trace w ++ told c error context /\
  (r = Ok tt \/ onRetry c <> None).
Proof.
  intro H. split; [exact (notify_onRetry_effect _ _ _ _ _ _ H)|].
  unfold notify_onRetry in H. destruct (onRetry c).
  - right. discriminate.
  - left. unfold ret in H. inversion H. reflexivity.
Qed.

Lemma wait_before_retry_shape nextDelay w (r : Outcome E unit) w' :
  wait_before_retry c startTime nextDelay w = (r, w') ->
  (exists total,
     totalTimeout c = Some total /\
     r = Throw (TimeoutError (TotalTimeoutWouldBeExceeded total)) /\
     trace w' = trace w) \/
  (trace w' = trace w ++ [EvSleep nextDelay] /\
   (r = Ok tt \/
    (r = Throw new_AbortError /\ exists t, signal c = Some (AbortedAt t)))).
Proof.
  unfold wait_before_retry, check_budget.
  destruct (totalTimeout c) as [total|].
  - destruct (Qltb (total - inject_Z (now w - startTime)) (inject_Z nextDelay)).
    + intro H. inversion H; subst. left. exists total.
      repeat split.
    + unfold bind, emit, sleep, aborted, abortTime. simpl.
      destruct (signal c) as [[|t]|]; intro H;
        repeat break_match_in H; inversion H; subst; right;
        (split; [reflexivity|]);
        first [left; reflexivity
              | right; split; [reflexivity|]; exists t; reflexivity].
  - unfold bind, emit, sleep, aborted, abortTime. simpl.
    destruct (signal c) as [[|t]|]; intro H;
      repeat break_match_in H; inversion H; subst; right;
      (split; [reflexivity|]);
      first [left; reflexivity
            | right; split; [reflexivity|]; exists t; reflexivity].
Qed.

(** What a run of the loop adds to the trace has the shape described by
    [Shaped], ending the way the outcome says. *)
Lemma loop_shaped remaining :
  forall attempt lastError w (r : Outcome E T) w',
    Z.of_nat remaining = retryCount c + 2 - attempt ->
    (0 < remaining)%nat ->
    loop fn c random startTime remaining attempt lastError w = (r, w') ->
    exists evs,
      trace w' = trace w ++ evs /\ Shaped c random attempt evs r.
Proof.
  induction remaining as [|k IH]; intros attempt lastError w r w' Hinv Hpos H;
    [lia|].
  rewrite loop_unfold in H.
  destruct (check_head c startTime w) as [e0|] eqn:Hh.
  { inversion H; subst. exists []. rewrite app_nil_r. split; [reflexivity|].
    destruct (check_head_cases _ _ Hh) as [[total [Ht He]]|[t [Hs He]]];
      subst.
    - apply shaped_head_timeout. exact Ht.
    - eapply shaped_head_abort. exact Hs. }
  apply check_head_not_aborted in Hh.
  destruct (run_attempt fn c attempt w) as [o w1] eqn:Hr.
  pose proof (run_attempt_trace _ _ _ _ _ _ Hh Hr) as T1.
  assert (Hle : attempt <= retryCount c + 1) by lia.
  destruct o as [v|error|].
  { inversion H; subst. exists [EvCall attempt]. split; [exact T1|].
    apply shaped_ok. exact Hle. }
  2:{ inversion H; subst. exists [EvCall attempt]. split; [exact T1|].
      apply shaped_hang; [exact Hle|].
      exact (run_attempt_pending _ _ _ Hr). }
  destruct (instanceof_AbortError error) eqn:Ha.
  { rewrite on_failure_abort in H by assumption. inversion H; subst.
    exists [EvCall attempt; EvFailed attempt error].
    split; [simpl; rewrite T1, <- app_assoc; reflexivity|].
    apply shaped_rethrow; [exact Hle|]. left. exact Ha. }
  destruct (Z.eq_dec (retryCount c + 1 - attempt) 0) as [Hl|Hl].
  { rewrite on_failure_final in H by assumption. inversion H; subst.
    exists [EvCall attempt; EvFailed attempt error].
    split; [simpl; rewrite T1, <- app_assoc; reflexivity|].
    apply shaped_rethrow; [exact Hle|]. right. lia. }
  assert (Hlt : attempt < retryCount c + 1) by lia.
  rewrite on_failure_retry in H by assumption.
  rewrite schedule_retry_unfold in H. cbv zeta in H.
  change (now (record (EvFailed attempt error) w1)) with (now w1) in H.
  set (context := mkContext attempt _ _ _) in H.
  change context with (contextAt c random attempt (now w1 - startTime)) in *.
  clear context.
  set (context := contextAt c random attempt (now w1 - startTime)) in *.
  destruct (consult_retryIf c error context
              (record (EvFailed attempt error) w1)) as [o1 wa] eqn:E1.
  destruct (consult_retryIf_shape _ _ _ _ _ E1) as [Ta Ca].
  simpl in Ta. rewrite T1 in Ta. rewrite <- !app_assoc in Ta. simpl in Ta.
  assert (Hrefused : forall (r0 : Outcome E T),
             o1 <> Ok tt -> (forall v, r0 <> Ok v) ->
             Shaped c random attempt
               (EvCall attempt :: EvFailed attempt error ::
                asked c error context) r0).
  { intros r0 Hno Hr0. destruct Ca as [Ca|Ca]; [contradiction|].
    unfold asked. destruct (retryIf c) eqn:Hrif; [|contradiction].
    apply shaped_refused; try assumption. rewrite Hrif. discriminate. }
  destruct o1 as [[]|e1|].
  2:{ inversion H; subst. eexists. split; [exact Ta|].
      apply Hrefused; discriminate. }
  2:{ inversion H; subst. eexists. split; [exact Ta|].
      apply Hrefused; discriminate. }
  clear Hrefused Ca.
  destruct (notify_onRetry c error context wa) as [o2 wb] eqn:E2.
  destruct (notify_onRetry_shape _ _ _ _ _ E2) as [Tb Cb].
  rewrite Ta in Tb. rewrite <- !app_assoc in Tb. simpl in Tb.
  assert (Hobs : forall (r0 : Outcome E T),
             o2 <> Ok tt -> (forall v, r0 <> Ok v) ->
             Shaped c random attempt
               (EvCall attempt :: EvFailed attempt error ::
                asked c error context ++ told c error context) r0).
  { intros r0 Hno Hr0. destruct Cb as [Cb|Cb]; [contradiction|].
    unfold told. destruct (onRetry c) eqn:Hobs; [|contradiction].
    apply shaped_observer; try assumption. rewrite Hobs. discriminate. }
  destruct o2 as [[]|e2|].
  2:{ inversion H; subst. eexists. split; [exact Tb|].
      apply Hobs; discriminate. }
  2:{ inversion H; subst. eexists. split; [exact Tb|].
      apply Hobs; discriminate. }
  clear Hobs Cb.
  destruct (wait_before_retry c startTime (delayAfter c random attempt) wb)
    as [o3 wc] eqn:E3.
  destruct (wait_before_retry_shape _ _ _ _ E3)
    as [[total [Ht [Ho Tc]]]|[Tc Cc]].
  { subst o3. inversion H; subst. eexists.
    split; [rewrite Tc; exact Tb|].
    apply shaped_budget; assumption. }
  rewrite Tb in Tc. rewrite <- !app_assoc in Tc. simpl in Tc.
  rewrite <- !app_assoc in Tc. simpl in Tc.
  destruct Cc as [Cc|[Cc [t Hs]]]; subst o3.
  - apply IH in H; [|lia|lia].
    destruct H as [rest [Td Hrest]].
    exists (EvCall attempt :: EvFailed attempt error ::
            asked c error context ++ told c error context ++
            EvSleep (delayAfter c random attempt) :: rest).
    split.
    + rewrite Td, Tc. rewrite <- !app_assoc. simpl.
      rewrite <- !app_assoc. reflexivity.
    + apply shaped_next; assumption.
  - inversion H; subst. eexists. split; [exact Tc|].
    eapply shaped_sleep_aborted; eassumption.
Qed.

End ShapeOfRun.

(** ** What every run looks like *)

Section EveryRun.

Context {T E U : Type}.
Variable c : @Settings E U.
Variable random : Z -> Q.

Implicit Types (evs : list (Event E)) (r : Outcome E T).

Lemma attemptsCalled_app evs1 evs2 :
  attemptsCalled (evs1 ++ evs2) = attemptsCalled evs1 ++ attemptsCalled evs2.
Proof.
  induction evs1 as [|ev evs1 IH]; [reflexivity|].
  destruct ev; simpl; rewrite IH; reflexivity.
Qed.

Ltac callbacks_cases :=
  unfold asked, told in *;
  destruct (retryIf c) eqn:?; destruct (onRetry c) eqn:?; simpl in *.

Lemma shaped_attempts attempt evs r :
  Shaped c random attempt evs r ->
  attemptsCalled evs
    = map (fun i => attempt + Z.of_nat i) (seq 0 (count isCall evs)).
Proof.
  induction 1 as
    [a total Ht | a t Hs | a v Hle | a Hle Hat | a err Hle Hwhy
    | a err el r Hlt Hna Hrif Hnok | a err el r Hlt Hna Hobs Hnok
    | a err el total Hlt Hna Ht | a err el t Hlt Hna Hs
    | a err el rest r Hlt Hna Hrest IH];
    try (unfold count; callbacks_cases; rewrite ?Z.add_0_r; reflexivity).
  assert (Hpre : forall tl : list (Event E),
             attemptsCalled
               (asked c err (contextAt c random a el) ++
                told c err (contextAt c random a el) ++
                EvSleep (delayAfter c random a) :: tl)
               = attemptsCalled tl /\
             count isCall
               (asked c err (contextAt c random a el) ++
                told c err (contextAt c random a el) ++
                EvSleep (delayAfter c random a) :: tl)
               = count isCall tl).
  { intro tl. unfold count. callbacks_cases; split; reflexivity. }
  destruct (Hpre rest) as [H1 H2].
  cbn [attemptsCalled]. rewrite H1, IH.
  rewrite !count_cons. cbn [isCall]. rewrite H2.
  cbn [Nat.add seq map]. rewrite Z.add_0_r. f_equal.
  rewrite <- seq_shift, map_map.
  apply map_ext. intro i. lia.
Qed.

(** Counts along a run: calls, caught failures, consultations,
    notifications and delays. *)
Lemma shaped_counts attempt evs r :
  Shaped c random attempt evs r ->
  (count isSleep evs <= List.length (failures evs))%nat /\
  (count isCall evs <= count isSleep evs + 1)%nat /\
  (count isRetryIf evs <= List.length (failures evs))%nat /\
  (retryIf c <> None -> (count isOnRetry evs <= count isRetryIf evs)%nat) /\
  (retryIf c = None -> count isRetryIf evs = 0%nat) /\
  (onRetry c = None -> count isOnRetry evs = 0%nat) /\
  (forall v, r = Ok v ->
     count isCall evs = (count isSleep evs + 1)%nat /\
     List.length (failures evs) = count isSleep evs /\
     exists before,
       evs = before ++ [EvCall (attempt + Z.of_nat (count isSleep evs))]).
Proof.
  induction 1 as
    [a total Ht | a t Hs | a v Hle | a Hle Hat | a err Hle Hwhy
    | a err el r Hlt Hna Hrif Hnok | a err el r Hlt Hna Hobs Hnok
    | a err el total Hlt Hna Ht | a err el t Hlt Hna Hs
    | a err el rest r Hlt Hna Hrest IH].
  1-9: refine (conj _ (conj _ (conj _ (conj _ (conj _ (conj _ _))))));
    [ unfold count; callbacks_cases; lia
    | unfold count; callbacks_cases; lia
    | unfold count; callbacks_cases; lia
    | intro Hn; unfold count; callbacks_cases; first [lia | congruence]
    | intro Hn; unfold count; callbacks_cases; first [lia | congruence]
    | intro Hn; unfold count; callbacks_cases; first [lia | congruence]
    | intros v0 Hv; try discriminate Hv;
      try (exfalso; eapply Hnok; exact Hv);
      unfold count; simpl;
      (split; [reflexivity|]); (split; [reflexivity|]);
      exists []; rewrite Z.add_0_r; reflexivity ].
  destruct IH as [I1 [I2 [I3 [I4 [I5 [I6 I7]]]]]].
  set (big := EvCall a :: EvFailed a err ::
              asked c err (contextAt c random a el) ++
              told c err (contextAt c random a el) ++
              EvSleep (delayAfter c random a) :: rest).
  assert (Hcall : count isCall big = S (count isCall rest)).
  { unfold big, count. callbacks_cases; reflexivity. }
  assert (Hsleep : count isSleep big = S (count isSleep rest)).
  { unfold big, count. callbacks_cases; reflexivity. }
  assert (Hask : count isRetryIf big
                 = (match retryIf c with Some _ => 1 | None => 0 end
                    + count isRetryIf rest)%nat).
  { unfold big, count. callbacks_cases; reflexivity. }
  assert (Htell : count isOnRetry big
                  = (match onRetry c with Some _ => 1 | None => 0 end
                     + count isOnRetry rest)%nat).
  { unfold big, count. callbacks_cases; reflexivity. }
  assert (Hfail : failures big = err :: failures rest).
  { unfold big. simpl. f_equal. rewrite !failures_app.
    callbacks_cases; reflexivity. }
  rewrite Hcall, Hsleep, Hask, Htell, Hfail. simpl List.length.
  refine (conj _ (conj _ (conj _ (conj _ (conj _ (conj _ _)))))).
  - lia.
  - lia.
  - destruct (retryIf c); lia.
  - intro Hn. specialize (I4 Hn).
    destruct (retryIf c); [|contradiction]. destruct (onRetry c); lia.
  - intro Hn. specialize (I5 Hn). rewrite Hn. lia.
  - intro Hn. specialize (I6 Hn). rewrite Hn. lia.
  - intros v0 Hv. destruct (I7 v0 Hv) as [J1 [J2 [before J3]]].
    refine (conj _ (conj _ _)); [lia|lia|].
    exists (EvCall a :: EvFailed a err ::
            asked c err (contextAt c random a el) ++
            told c err (contextAt c random a el) ++
            EvSleep (delayAfter c random a) :: before).
    replace (a + Z.of_nat (S (count isSleep rest)))
      with (a + 1 + Z.of_nat (count isSleep rest)) by lia.
    unfold big. rewrite J3 at 1. simpl. rewrite <- !app_assoc.
    reflexivity.
Qed.

(** The callbacks are only given what the [catch] block has at hand. *)
Lemma stoppedAtRetryIf_app evs1 (ev : Event E) evs2 :
  stoppedAtRetryIf (evs1 ++ ev :: evs2) = stoppedAtRetryIf (ev :: evs2).
Proof.
  unfold stoppedAtRetryIf. rewrite rev_app_distr.
  destruct (rev (ev :: evs2)) as [|x l] eqn:Hr; [|reflexivity].
  apply (f_equal (@List.length _)) in Hr. rewrite length_rev in Hr.
  discriminate Hr.
Qed.

Lemma stoppedAtRetryIf_sleep evs1 (ms : Z) evs2 :
  stoppedAtRetryIf (evs1 ++ EvSleep ms :: evs2) = stoppedAtRetryIf evs2.
Proof.
  destruct evs2 as [|ev evs2].
  - rewrite stoppedAtRetryIf_app. reflexivity.
  - change (evs1 ++ EvSleep ms :: ev :: evs2)
      with (evs1 ++ [EvSleep ms] ++ ev :: evs2).
    rewrite app_assoc. apply stoppedAtRetryIf_app.
Qed.

(** With [onRetry] configured and no AbortError among the caught failures,
    the observer has been called for every failure but that of the last
    permitted attempt, unless the call stopped at a consultation of
    [retryIf]. *)
Lemma shaped_onRetry_exact attempt evs r :
  Shaped c random attempt evs r ->
  onRetry c <> None ->
  Forall (fun e => instanceof_AbortError e = false) (failures evs) ->
  count isOnRetry evs
    = Nat.min (List.length (failures evs))
              (Z.to_nat (retryCount c + 1 - attempt))
  <-> stoppedAtRetryIf evs = false.
Proof.
  intros Hshaped Hobs. induction Hshaped as
    [a total Ht | a t Hs | a v Hle | a Hle Hat | a err Hle Hwhy
    | a err el r Hlt Hna Hrif Hnok | a err el r Hlt Hna Hobs' Hnok
    | a err el total Hlt Hna Ht | a err el t Hlt Hna Hs
    | a err el rest r Hlt Hna Hrest IH]; intro Hall.
  1-4: unfold count; simpl; split; reflexivity.
  - unfold count. simpl. split; [reflexivity|]. intros _.
    simpl in Hall. inversion Hall; subst.
    destruct Hwhy as [F|Hlast]; [congruence|].
    replace (retryCount c + 1 - a) with 0 by lia. reflexivity.
  - unfold count. simpl.
    replace (Z.to_nat (retryCount c + 1 - a))
      with (S (Z.to_nat (retryCount c - a))) by lia.
    simpl. split; discriminate.
  - rewrite app_comm_cons, app_comm_cons, stoppedAtRetryIf_app.
    replace (Z.to_nat (retryCount c + 1 - a))
      with (S (Z.to_nat (retryCount c - a))) by lia.
    unfold count. callbacks_cases; split; reflexivity.
  - replace (Z.to_nat (retryCount c + 1 - a))
      with (S (Z.to_nat (retryCount c - a))) by lia.
    unfold count, stoppedAtRetryIf.
    callbacks_cases; first [congruence | split; reflexivity].
  - rewrite !app_comm_cons, !app_assoc, stoppedAtRetryIf_app.
    replace (Z.to_nat (retryCount c + 1 - a))
      with (S (Z.to_nat (retryCount c - a))) by lia.
    unfold count. rewrite <- !app_assoc.
    callbacks_cases; first [congruence | split; reflexivity].
  - assert (Htell : count isOnRetry
                      (EvCall a :: EvFailed a err ::
                       asked c err (contextAt c random a el) ++
                       told c err (contextAt c random a el) ++
                       EvSleep (delayAfter c random a) :: rest)
                    = S (count isOnRetry rest)).
    { unfold count. callbacks_cases; first [congruence | reflexivity]. }
    assert (Hfail : failures
                      (EvCall a :: EvFailed a err ::
                       asked c err (contextAt c random a el) ++
                       told c err (contextAt c random a el) ++
                       EvSleep (delayAfter c random a) :: rest)
                    = err :: failures rest).
    { simpl. f_equal. rewrite !failures_app.
      callbacks_cases; reflexivity. }
    rewrite Hfail in Hall. inversion Hall; subst.
    specialize (IH H2).
    rewrite Htell, Hfail.
    rewrite !app_comm_cons, !app_assoc, stoppedAtRetryIf_sleep.
    rewrite <- IH. cbn [List.length].
    replace (Z.to_nat (retryCount c + 1 - a))
      with (S (Z.to_nat (retryCount c + 1 - (a + 1)))) by lia.
    lia.
Qed.

Lemma shaped_contexts first evs r :
  Shaped c random first evs r ->
  forall e context,
    In (EvRetryIf e context) evs \/ In (EvOnRetry e context) evs ->
    In (EvFailed (attempt context) e) evs /\
    first <= attempt context < retryCount c + 1 /\
    retriesLeft context = retryCount c + 1 - attempt context /\
    nextDelay context = delayAfter c random (attempt context) /\
    instanceof_AbortError e = false.
Proof.
  induction 1 as
    [a total Ht | a t Hs | a v Hle | a Hle Hat | a err Hle Hwhy
    | a err el r Hlt Hna Hrif Hnok | a err el r Hlt Hna Hobs Hnok
    | a err el total Hlt Hna Ht | a err el t Hlt Hna Hs
    | a err el rest r Hlt Hna Hrest IH];
    intros e context Hin.
  1-9: callbacks_cases;
    repeat match goal with
           | Hor : _ \/ _ |- _ => destruct Hor
           | Hf : False |- _ => contradiction
           | Heq : _ = _ :> Event E |- _ => inversion Heq; subst; clear Heq
           end;
    simpl; (split; [tauto|]); (split; [lia|]); repeat split; assumption.
  assert (Hown : In (EvRetryIf e context)
                   (asked c err (contextAt c random a el) ++
                    told c err (contextAt c random a el)) \/
                 In (EvOnRetry e context)
                   (asked c err (contextAt c random a el) ++
                    told c err (contextAt c random a el)) ->
                 e = err /\ context = contextAt c random a el).
  { callbacks_cases; intros [Hx|Hx];
      repeat match goal with
             | Hor : _ \/ _ |- _ => destruct Hor
             | Hf : False |- _ => contradiction
             | Heq : _ = _ :> Event E |- _ => inversion Heq; subst; clear Heq
             end; split; reflexivity. }
  assert (Hsplit : forall ev : Event E,
             isSleep ev = false -> isCall ev = false -> isFailed ev = false ->
             In ev (EvCall a :: EvFailed a err ::
                    asked c err (contextAt c random a el) ++
                    told c err (contextAt c random a el) ++
                    EvSleep (delayAfter c random a) :: rest) ->
             In ev (asked c err (contextAt c random a el) ++
                    told c err (contextAt c random a el)) \/ In ev rest).
  { intros ev N1 N2 N3 Hev. simpl in Hev.
    destruct Hev as [Hev|[Hev|Hev]]; try (subst ev; discriminate).
    rewrite app_assoc in Hev. apply in_app_or in Hev.
    destruct Hev as [Hev|[Hev|Hev]]; [left; exact Hev| |right; exact Hev].
    subst ev. discriminate. }
  assert (Hcase : (e = err /\ context = contextAt c random a el) \/
                  In (EvRetryIf e context) rest \/
                  In (EvOnRetry e context) rest).
  { destruct Hin as [Hin|Hin]; apply Hsplit in Hin; try reflexivity;
      destruct Hin as [Hin|Hin]; auto. }
  destruct Hcase as [[-> ->]|Hrest'].
  - simpl. split; [tauto|]. split; [lia|]. repeat split. exact Hna.
  - destruct (IH e context Hrest') as [J1 [J2 [J3 [J4 J5]]]].
    split.
    + simpl. right. right. rewrite app_assoc. apply in_or_app. right.
      right. exact J1.
    + split; [lia|]. repeat split; assumption.
Qed.

(** Every delay is the one computed for a failure that was caught. *)
Lemma shaped_delays attempt evs r :
  Shaped c random attempt evs r ->
  forall ms,
    In (EvSleep ms) evs ->
    exists failed error,
      In (EvFailed failed error) evs /\
      attempt <= failed < retryCount c + 1 /\
      ms = delayAfter c random failed.
Proof.
  induction 1 as
    [a total Ht | a t Hs | a v Hle | a Hle Hat | a err Hle Hwhy
    | a err el r Hlt Hna Hrif Hnok | a err el r Hlt Hna Hobs Hnok
    | a err el total Hlt Hna Ht | a err el t Hlt Hna Hs
    | a err el rest r Hlt Hna Hrest IH];
    intros ms Hin.
  1-8: exfalso; callbacks_cases;
    repeat match goal with
           | Hor : _ \/ _ |- _ => destruct Hor
           | Hf : False |- _ => contradiction
           | Heq : _ = _ :> Event E |- _ => discriminate Heq
           end.
  - exists a, err. split; [simpl; tauto|]. split; [lia|].
    callbacks_cases;
      repeat match goal with
             | Hor : _ \/ _ |- _ => destruct Hor
             | Hf : False |- _ => contradiction
             | Heq : _ = _ :> Event E |- _ =>
                 first [discriminate Heq | inversion Heq; reflexivity]
             end.
  - assert (Hcase : ms = delayAfter c random a \/ In (EvSleep ms) rest).
    { callbacks_cases;
        repeat match goal with
               | Hor : _ \/ _ |- _ => destruct Hor
               | Hf : False |- _ => contradiction
               | Heq : _ = _ :> Event E |- _ =>
                   first [discriminate Heq
                         | inversion Heq; left; reflexivity]
               end; right; assumption. }
    destruct Hcase as [->|Hrest'].
    + exists a, err. split; [simpl; tauto|]. split; [lia|reflexivity].
    + destruct (IH ms Hrest') as [failed [error [J1 [J2 J3]]]].
      exists failed, error. split; [|split; [lia|exact J3]].
      simpl. right. right. rewrite app_assoc. apply in_or_app. right.
      right. exact J1.
Qed.

(** A run can only stay pending on an attempt without [attemptTimeout] or
    on a callback. *)
Lemma split_after_prefix {A : Type} (prefix rest before after : list A)
    (x : A) :
  ~ In x prefix ->
  prefix ++ rest = before ++ x :: after ->
  exists middle, before = prefix ++ middle /\ rest = middle ++ x :: after.
Proof.
  revert before. induction prefix as [|y prefix IH]; intros before Hnot Heq.
  - exists before. split; [reflexivity|exact Heq].
  - destruct before as [|z before]; simpl in Heq; inversion Heq; subst.
    + exfalso. apply Hnot. left. reflexivity.
    + destruct (IH before) as [middle [Hm1 Hm2]];
        [intro F; apply Hnot; right; exact F|assumption|].
      exists middle. split; [rewrite Hm1; reflexivity|exact Hm2].
Qed.

Lemma no_call_in_catch (error : Thrown E) (context : RetryContext)
    (n a ms : Z) :
  ~ In (EvCall n)
       (EvFailed a error :: asked c error context ++
        told c error context ++ [@EvSleep E ms]).
Proof.
  unfold asked, told.
  destruct (retryIf c), (onRetry c); simpl; intuition discriminate.
Qed.

(** Every call but the first comes right after the delay computed for the
    attempt before it, which had failed. *)
Lemma shaped_calls_follow_delays attempt evs r :
  Shaped c random attempt evs r ->
  forall before n after,
    evs = before ++ EvCall n :: after ->
    (before = [] /\ n = attempt) \/
    (exists front error,
       before = front ++ [EvSleep (delayAfter c random (n - 1))] /\
       In (EvFailed (n - 1) error) front).
Proof.
  assert (Hone : forall a (tail before after : list (Event E)) n,
            ~ In (EvCall n) tail ->
            EvCall a :: tail = before ++ EvCall n :: after ->
            before = [] /\ n = a).
  { intros a tail before after n Hnot Heq.
    destruct before as [|z before]; simpl in Heq; inversion Heq; subst.
    - split; reflexivity.
    - exfalso. apply Hnot. apply in_or_app. right. left. reflexivity. }
  induction 1 as
    [a total Ht | a t Hs | a v Hle | a Hle Hat | a err Hle Hwhy
    | a err el r Hlt Hna Hrif Hnok | a err el r Hlt Hna Hobs Hnok
    | a err el total Hlt Hna Ht | a err el t Hlt Hna Hs
    | a err el rest r Hlt Hna Hrest IH]; intros before n after Heq.
  1-2: destruct before; discriminate Heq.
  1-7: left; refine (Hone _ _ _ _ _ _ Heq); unfold asked, told;
    destruct (retryIf c), (onRetry c); simpl; intuition discriminate.
  destruct before as [|z before]; simpl in Heq; inversion Heq; subst.
  { left. split; reflexivity. }
  right.
  assert (Hsplit :
    (EvFailed a err :: asked c err (contextAt c random a el) ++
     told c err (contextAt c random a el) ++
     [EvSleep (delayAfter c random a)]) ++ rest
    = before ++ EvCall n :: after).
  { rewrite <- H1. simpl. rewrite <- !app_assoc. reflexivity. }
  apply split_after_prefix in Hsplit; [|apply no_call_in_catch].
  destruct Hsplit as [middle [Hb Hr]].
  destruct (IH _ _ _ Hr) as [[Hnil Hn]|[front [error [Hf Hin]]]].
  - subst middle n. replace (a + 1 - 1) with a by lia.
    exists (EvCall a :: EvFailed a err ::
            asked c err (contextAt c random a el) ++
            told c err (contextAt c random a el)), err.
    split.
    + rewrite Hb, app_nil_r. simpl. rewrite <- !app_assoc. reflexivity.
    + right. left. reflexivity.
  - exists (EvCall a :: EvFailed a err ::
            asked c err (contextAt c random a el) ++
            told c err (contextAt c random a el) ++
            EvSleep (delayAfter c random a) :: front), error.
    split.
    + rewrite Hb, Hf. simpl. rewrite <- !app_assoc. reflexivity.
    + right. right. apply in_or_app. right. apply in_or_app. right.
      right. exact Hin.
Qed.

Lemma shaped_pending attempt evs :
  Shaped c random attempt evs (@Pending E T) ->
  attemptTimeout c = None \/ retryIf c <> None \/ onRetry c <> None.
Proof.
  intro H. remember (@Pending E T) as r eqn:Hr.
  induction H as
    [a total Ht | a t Hs | a v Hle | a Hle Hat | a err Hle Hwhy
    | a err el r Hlt Hna Hrif Hnok | a err el r Hlt Hna Hobs Hnok
    | a err el total Hlt Hna Ht | a err el t Hlt Hna Hs
    | a err el rest r Hlt Hna Hrest IH];
    try discriminate Hr; auto.
Qed.

(** Without callbacks, a rejected run ends with the last caught failure
    (an AbortError, or the failure of the last permitted attempt), with the
    AbortError of the signal, or with a total timeout. *)
Lemma shaped_rejection attempt evs e :
  retryIf c = None -> onRetry c = None ->
  Shaped c random attempt evs (@Throw E T e) ->
  (exists before,
     failures evs = before ++ [e] /\
     (instanceof_AbortError e = true \/
      Z.of_nat (List.length (failures evs)) = retryCount c + 2 - attempt)) \/
  (e = new_AbortError /\ exists t, signal c = Some (AbortedAt t)) \/
  (isTotalTimeout e = true /\ exists total, totalTimeout c = Some total).
Proof.
  intros Hnp Hno H. remember (@Throw E T e) as r eqn:Hr.
  induction H as
    [a total Ht | a t Hs | a v Hle | a Hle Hat | a err Hle Hwhy
    | a err el r Hlt Hna Hrif Hnok | a err el r Hlt Hna Hobs Hnok
    | a err el total Hlt Hna Ht | a err el t Hlt Hna Hs
    | a err el rest r Hlt Hna Hrest IH];
    try discriminate Hr; try congruence.
  - inversion Hr; subst. right. right. split; [reflexivity|].
    exists total. exact Ht.
  - inversion Hr; subst. right. left. split; [reflexivity|].
    exists t. exact Hs.
  - inversion Hr; subst. left. exists []. split; [reflexivity|].
    simpl. destruct Hwhy as [Hab|Hlast]; [left; exact Hab|right; lia].
  - inversion Hr; subst. right. right. split; [reflexivity|].
    exists total. exact Ht.
  - inversion Hr; subst. right. left. split; [reflexivity|].
    exists t. exact Hs.
  - specialize (IH Hr).
    assert (Hf : failures
                   (EvCall a :: EvFailed a err ::
                    asked c err (contextAt c random a el) ++
                    told c err (contextAt c random a el) ++
                    EvSleep (delayAfter c random a) :: rest)
                 = err :: failures rest).
    { simpl. f_equal. rewrite !failures_app. callbacks_cases; reflexivity. }
    rewrite Hf.
    destruct IH as [[before [J1 J2]]|[J|J]]; [left|right; left|right; right];
      try exact J.
    exists (err :: before). split; [rewrite J1; reflexivity|].
    destruct J2 as [J2|J2]; [left; exact J2|right].
    simpl List.length. lia.
Qed.

(** With no retries allowed there is one attempt and nothing else. *)
Lemma shaped_single_attempt evs r :
  retryCount c = 0 ->
  Shaped c random 1 evs r ->
  (evs = [] /\ (forall v, r <> Ok v)) \/
  (evs = [EvCall 1] /\ (forall e, r <> Throw e)) \/
  (exists error, evs = [EvCall 1; EvFailed 1 error] /\ r = Throw error).
Proof.
  intros Hz H. inversion H; subst; try lia.
  - left. split; [reflexivity|discriminate].
  - left. split; [reflexivity|discriminate].
  - right. left. split; [reflexivity|discriminate].
  - right. left. split; [reflexivity|discriminate].
  - right. right. eexists. split; reflexivity.
Qed.

End EveryRun.

(** ** What every call of [retry] looks like *)

Section RetryRuns.

Context {T E U : Type} {host : Timers}.
Implicit Types (fn : @Operation T E U) (options : @RetryOptions E U)
  (w : @World E U) (r : Outcome E T).

Lemma retry_shaped fn options random w r w' :
  validate (destructure options) = None ->
  retry fn options random w = (r, w') ->
  exists evs,
    trace w' = trace w ++ evs /\
    Shaped (destructure options) random 1 evs r.
Proof.
  intros Hv H.
  destruct (valid_retryCount _ Hv) as [Hpos _].
  destruct (retry_valid_cases _ _ _ _ _ _ Hv H) as [[Ha [Hr Hw]]|[Ha Hl]].
  - subst. exists []. rewrite app_nil_r. split; [reflexivity|].
    unfold aborted in Ha.
    destruct (signal (destructure options)) as [[|t]|] eqn:Hs;
      try discriminate.
    eapply shaped_head_abort. exact Hs.
  - apply loop_shaped in Hl; [exact Hl|lia|lia].
Qed.

(** C8 (amended). The onRetry observer is invoked at most
    min(failedAttempts, retries) times, hence never for a successful attempt
    and never for the failure of the last permitted attempt.  When it is
    configured and no caught failure is an AbortError, it is invoked exactly
    min(failedAttempts, retries) times if and only if the call did not stop
    at a consultation of retryIf; in particular it is when retryIf accepts
    every failure it is consulted about. *)
Theorem onRetry_call_count fn options random w r w' :
  ~ violatesConstraint (destructure options) ->
  retry fn options random w = (r, w') ->
  exists evs,
    trace w' = trace w ++ evs /\
    (onRetryCalls evs
       <= Nat.min (failedAttempts evs)
                  (Z.to_nat (retryCount (destructure options))))%nat /\
    (o_onRetry options <> None ->
     Forall (fun e => instanceof_AbortError e = false) (failures evs) ->
     (onRetryCalls evs
        = Nat.min (failedAttempts evs)
                  (Z.to_nat (retryCount (destructure options)))
      <-> stoppedAtRetryIf evs = false) /\
     (accepted (destructure options) evs ->
      onRetryCalls evs
        = Nat.min (failedAttempts evs)
                  (Z.to_nat (retryCount (destructure options))))).
Proof.
  intros Hv H. apply validate_None_iff in Hv.
  destruct (valid_retryCount _ Hv) as [Hpos Hint].
  destruct (retry_shaped _ _ _ _ _ _ Hv H) as [evs [Htr Hshaped]].
  exists evs. split; [exact Htr|].
  assert (Hexact :
    o_onRetry options <> None ->
    Forall (fun e => instanceof_AbortError e = false) (failures evs) ->
    onRetryCalls evs
      = Nat.min (failedAttempts evs)
                (Z.to_nat (retryCount (destructure options)))
    <-> stoppedAtRetryIf evs = false).
  { intros Hn Hall.
    pose proof (shaped_onRetry_exact _ _ _ _ _ Hshaped Hn Hall) as Hiff.
    replace (retryCount (destructure options) + 1 - 1)
      with (retryCount (destructure options)) in Hiff by lia.
    exact Hiff. }
  destruct (retry_valid_cases _ _ _ _ _ _ Hv H) as [[Ha [Hr Hw]]|[Ha Hl]].
  - subst w'. rewrite <- (app_nil_r (trace w)) in Htr at 1.
    apply app_inv_head in Htr. subst evs.
    unfold onRetryCalls, failedAttempts, count. simpl.
    split; [lia|]. intros Hn Hall. split; [|intros _; reflexivity].
    split; reflexivity.
  - apply loop_summary in Hl; [|lia].
    destruct Hl as [evs' [Htr' [C1 [C2 [C3 [C4 [C5 _]]]]]]].
    rewrite Htr in Htr'. apply app_inv_head in Htr'. subst evs'.
    unfold onRetryCalls, failedAttempts in *.
    replace (Z.to_nat (retryCount (destructure options) + 1) - 1)%nat
      with (Z.to_nat (retryCount (destructure options))) in * by lia.
    split; [lia|]. intros Hn Hall.
    split; [exact (Hexact Hn Hall)|].
    intro Hacc. exact (C5 Hacc Hn Hall).
Qed.

(** X6. The operation is called with the attempt numbers 1, 2, 3, ... in
    order, without gap or repetition. *)
Theorem attempts_are_numbered_from_one fn options random w r w' :
  ~ violatesConstraint (destructure options) ->
  retry fn options random w = (r, w') ->
  exists evs,
    trace w' = trace w ++ evs /\
    attemptsCalled evs = map Z.of_nat (seq 1 (invocations evs)).
Proof.
  intros Hv H. apply validate_None_iff in Hv.
  destruct (retry_shaped _ _ _ _ _ _ Hv H) as [evs [Htr Hs]].
  exists evs. split; [exact Htr|].
  rewrite (shaped_attempts _ _ _ _ _ Hs). unfold invocations.
  rewrite <- seq_shift, map_map. apply map_ext. intro i. lia.
Qed.

(** X7. Whatever [retryIf] and [onRetry] are called with is what the [catch]
    block has at hand: the error is one the loop caught on the attempt the
    context names and is not an AbortError; the attempt is 1-based; at least
    one retry is left, with attempt + retriesLeft = retries + 1; and nextDelay
    is the backoff computed for that attempt. *)
Theorem callbacks_receive_the_current_failure
    fn options random w r w' :
  ~ violatesConstraint (destructure options) ->
  retry fn options random w = (r, w') ->
  exists evs,
    trace w' = trace w ++ evs /\
    forall e context,
      In (EvRetryIf e context) evs \/ In (EvOnRetry e context) evs ->
      In (EvFailed (attempt context) e) evs /\
      instanceof_AbortError e = false /\
      1 <= attempt context /\ 1 <= retriesLeft context /\
      (inject_Z (attempt context + retriesLeft context)
         == retries (destructure options) + 1)%Q /\
      nextDelay context
        = calculateDelay (attempt context)
            (minTimeout (destructure options))
            (maxTimeout (destructure options))
            (factor (destructure options))
            (jitter (destructure options)) (random (attempt context)).
Proof.
  intros Hv H. apply validate_None_iff in Hv.
  destruct (valid_retryCount _ Hv) as [Hpos Hint].
  destruct (retry_shaped _ _ _ _ _ _ Hv H) as [evs [Htr Hs]].
  exists evs. split; [exact Htr|].
  intros e context Hin.
  destruct (shaped_contexts _ _ _ _ _ Hs e context Hin)
    as [J1 [J2 [J3 [J4 J5]]]].
  split; [exact J1|]. split; [exact J5|].
  split; [lia|]. split; [lia|]. split; [|exact J4].
  rewrite <- Hint. change 1%Q with (inject_Z 1).
  rewrite <- inject_Z_plus. rewrite J3.
  replace (attempt context
           + (retryCount (destructure options) + 1 - attempt context))
    with (retryCount (destructure options) + 1) by lia.
  reflexivity.
Qed.

(** X8. Every delay is the backoff computed for a failure the loop caught,
    and there are no more delays than caught failures.  Every call of the
    operation but the first, which is attempt 1, comes right after a delay
    of its own: the event before the call of attempt n is the delay computed
    for attempt n - 1, which had failed. *)
Theorem every_retry_waits_its_backoff fn options random w r w' :
  ~ violatesConstraint (destructure options) ->
  retry fn options random w = (r, w') ->
  exists evs,
    trace w' = trace w ++ evs /\
    (forall ms,
       In (EvSleep ms) evs ->
       exists failed error,
         In (EvFailed failed error) evs /\
         ms = calculateDelay failed
                (minTimeout (destructure options))
                (maxTimeout (destructure options))
                (factor (destructure options))
                (jitter (destructure options)) (random failed)) /\
    (delaysStarted evs <= failedAttempts evs)%nat /\
    (invocations evs <= delaysStarted evs + 1)%nat /\
    (forall before n after,
       evs = before ++ EvCall n :: after ->
       (before = [] /\ n = 1) \/
       (exists front error,
          before
            = front ++
              [EvSleep
                 (calculateDelay (n - 1)
                    (minTimeout (destructure options))
                    (maxTimeout (destructure options))
                    (factor (destructure options))
                    (jitter (destructure options)) (random (n - 1)))] /\
          In (EvFailed (n - 1) error) front)).
Proof.
  intros Hv H. apply validate_None_iff in Hv.
  destruct (retry_shaped _ _ _ _ _ _ Hv H) as [evs [Htr Hs]].
  exists evs. split; [exact Htr|].
  destruct (shaped_counts _ _ _ _ _ Hs) as [C1 [C2 _]].
  split; [|split; [exact C1|split; [exact C2|]]].
  - intros ms Hin.
    destruct (shaped_delays _ _ _ _ _ Hs ms Hin)
      as [failed [error [J1 [_ J3]]]].
    exists failed, error. split; [exact J1|exact J3].
  - intros before n after Heq.
    exact (shaped_calls_follow_delays _ _ _ _ _ Hs before n after Heq).
Qed.

(** X9. A call that succeeds returns from its last call of the operation:
    every earlier call failed and was followed by its delay, and nothing
    happens after the successful call. *)
Theorem success_comes_from_the_last_call fn options random w v w' :
  ~ violatesConstraint (destructure options) ->
  retry fn options random w = (Ok v, w') ->
  exists evs before,
    trace w' = trace w ++ evs /\
    evs = before ++ [EvCall (Z.of_nat (invocations evs))] /\
    invocations evs = (failedAttempts evs + 1)%nat /\
    delaysStarted evs = failedAttempts evs.
Proof.
  intros Hv H. apply validate_None_iff in Hv.
  destruct (retry_shaped _ _ _ _ _ _ Hv H) as [evs [Htr Hs]].
  destruct (shaped_counts _ _ _ _ _ Hs) as [_ [_ [_ [_ [_ [_ C7]]]]]].
  destruct (C7 v eq_refl) as [J1 [J2 [before J3]]].
  exists evs, before. split; [exact Htr|].
  unfold invocations, delaysStarted, failedAttempts.
  split; [|split; [lia|lia]].
  rewrite J3 at 1. do 3 f_equal. lia.
Qed.

(** X10. [retryIf] is consulted at most once per caught failure, and when it
    is configured [onRetry] is only notified after a consultation. *)
Theorem onRetry_follows_retryIf fn options random w r w' :
  ~ violatesConstraint (destructure options) ->
  retry fn options random w = (r, w') ->
  exists evs,
    trace w' = trace w ++ evs /\
    (retryIfCalls evs <= failedAttempts evs)%nat /\
    (o_retryIf options <> None ->
     (onRetryCalls evs <= retryIfCalls evs)%nat).
Proof.
  intros Hv H. apply validate_None_iff in Hv.
  destruct (retry_shaped _ _ _ _ _ _ Hv H) as [evs [Htr Hs]].
  destruct (shaped_counts _ _ _ _ _ Hs) as [_ [_ [C3 [C4 _]]]].
  exists evs. split; [exact Htr|]. split; [exact C3|exact C4].
Qed.

(** X11. Without callbacks a call is rejected in three ways only: with the
    last failure the loop caught, which is then an AbortError or the failure
    of attempt retries + 1; with the AbortError of a configured signal; or
    with the TimeoutError of a configured totalTimeout. *)
Theorem rejection_without_callbacks fn options random w e w' :
  ~ violatesConstraint (destructure options) ->
  o_retryIf options = None -> o_onRetry options = None ->
  retry fn options random w = (Throw e, w') ->
  exists evs,
    trace w' = trace w ++ evs /\
    ((exists before,
        failures evs = before ++ [e] /\
        (instanceof_AbortError e = true \/
         (inject_Z (Z.of_nat (failedAttempts evs))
            == retries (destructure options) + 1)%Q)) \/
     (e = new_AbortError /\ o_signal options <> None) \/
     (isTotalTimeout e = true /\ o_totalTimeout options <> None)).
Proof.
  intros Hv Hp Ho H. apply validate_None_iff in Hv.
  destruct (valid_retryCount _ Hv) as [Hpos Hint].
  destruct (retry_shaped _ _ _ _ _ _ Hv H) as [evs [Htr Hs]].
  exists evs. split; [exact Htr|].
  destruct (shaped_rejection (destructure options) _ _ _ _ Hp Ho Hs)
    as [[before [J1 J2]]|[[J1 [t J2]]|[J1 [total J2]]]].
  - left. exists before. split; [exact J1|].
    destruct J2 as [J2|J2]; [left; exact J2|right].
    unfold failedAttempts. rewrite J2. rewrite <- Hint.
    change 1%Q with (inject_Z 1). rewrite <- inject_Z_plus.
    replace (retryCount (destructure options) + 2 - 1)
      with (retryCount (destructure options) + 1) by lia.
    reflexivity.
  - right. left. split; [exact J1|]. simpl in J2. rewrite J2. discriminate.
  - right. right. split; [exact J1|]. simpl in J2. rewrite J2. discriminate.
Qed.

(** X12. With [retries: 0] there is a single attempt and nothing else: no
    consultation, no notification, no delay, and a failure of that attempt is
    the error of the call. *)
Theorem zero_retries_single_attempt fn options random w r w' :
  o_retries options = Some 0%Q ->
  ~ violatesConstraint (destructure options) ->
  retry fn options random w = (r, w') ->
  exists evs,
    trace w' = trace w ++ evs /\
    (invocations evs <= 1)%nat /\
    retryIfCalls evs = 0%nat /\ onRetryCalls evs = 0%nat /\
    delaysStarted evs = 0%nat /\
    (forall error, In error (failures evs) -> r = Throw error).
Proof.
  intros Hz Hv H. apply validate_None_iff in Hv.
  destruct (retry_shaped _ _ _ _ _ _ Hv H) as [evs [Htr Hs]].
  exists evs. split; [exact Htr|].
  assert (Hrc : retryCount (destructure options) = 0).
  { unfold retryCount, destructure. simpl. rewrite Hz. reflexivity. }
  destruct (shaped_single_attempt _ _ _ _ Hrc Hs)
    as [[-> _]|[[-> _]|[error [-> ->]]]];
    unfold invocations, retryIfCalls, onRetryCalls, delaysStarted, count;
    simpl; repeat (split; [first [reflexivity | lia]|]).
  - intros error [].
  - intros error [].
  - intros error' [<-|[]]. reflexivity.
Qed.

End RetryRuns.

(** ** Pending calls *)

Section Settling.

Context {T E U : Type} {host : Timers}.
Implicit Types (fn : @Operation T E U) (c : @Settings E U)
  (options : @RetryOptions E U) (w : @World E U).

Lemma await_start_pending {A : Type} (cap : @Capability E U A) w w' :
  (forall t s, fst (cap t s) <> Never) ->
  await_start cap w = (Pending, w') -> False.
Proof.
  intros Hs. unfold await_start, start, await.
  pose proof (Hs (now w) (user w)) as Hn.
  destruct (cap (now w) (user w)) as [p s]. simpl in Hn.
  destruct p; try discriminate. contradiction.
Qed.

Lemma on_failure_settles c random startTime attempt error w w' :
  callbacks_settle c ->
  on_failure c random startTime attempt error w = (Pending, w') -> False.
Proof.
  intros [Hp Hcb] H.
  destruct (instanceof_AbortError error) eqn:Ha.
  { rewrite on_failure_abort in H by assumption. discriminate. }
  destruct (Z.eq_dec (retryCount c + 1 - attempt) 0) as [Hl|Hl].
  { rewrite on_failure_final in H by assumption. discriminate. }
  rewrite on_failure_retry in H by assumption.
  rewrite schedule_retry_unfold in H. cbv zeta in H.
  set (context := mkContext attempt _ _ _) in H.
  set (wf := record (EvFailed attempt error) w) in H.
  destruct (consult_retryIf c error context wf) as [o1 w1] eqn:E1.
  destruct o1 as [[]|e1|]; [|discriminate|].
  2:{ unfold consult_retryIf in E1.
      destruct (retryIf c) as [p|] eqn:Hr; [|discriminate].
      unfold bind, emit in E1.
      destruct (await_start (p error context)
                  (record (EvRetryIf error context) wf)) as [o wa] eqn:Hs.
      destruct o as [[|]|e0|]; unfold throw, ret in E1; try discriminate.
      apply await_start_pending in Hs; [exact Hs|].
      intros. apply (Hp p eq_refl). }
  destruct (notify_onRetry c error context w1) as [o2 w2] eqn:E2.
  destruct o2 as [[]|e2|]; [|discriminate|].
  2:{ unfold notify_onRetry in E2.
      destruct (onRetry c) as [cb|] eqn:Hr; [|discriminate].
      unfold bind, emit in E2.
      apply await_start_pending in E2; [exact E2|].
      intros. apply (Hcb cb eq_refl). }
  unfold wait_before_retry in H.
  destruct (check_budget c startTime (delayAfter c random attempt) w2);
    [discriminate|].
  unfold bind, emit, sleep in H.
  repeat break_match_in H; discriminate.
Qed.

Lemma loop_settles fn c random startTime remaining :
  forall attempt (lastError : Thrown E) w w',
    attemptTimeout c <> None ->
    callbacks_settle c ->
    loop fn c random startTime remaining attempt lastError w
      = (Pending, w') -> False.
Proof.
  induction remaining as [|k IH]; intros attempt lastError w w' Ht Hs H.
  - simpl in H. discriminate.
  - rewrite loop_unfold in H.
    destruct (check_head c startTime w); [discriminate|].
    destruct (run_attempt fn c attempt w) as [o w1] eqn:Hr.
    destruct o as [v|error|]; [discriminate| |].
    + destruct (on_failure c random startTime attempt error w1)
        as [o2 w2] eqn:Hf.
      destruct o2 as [[]|e2|]; [|discriminate|].
      * exact (IH _ _ _ _ Ht Hs H).
      * exact (on_failure_settles _ _ _ _ _ _ _ Hs Hf).
    + apply run_attempt_pending in Hr. contradiction.
Qed.

(** X13. With [attemptTimeout] set, and callbacks that settle, a call of
    [retry] always settles, whatever the operation does. *)
Theorem retry_settles_under_attemptTimeout fn options random tm w :
  o_attemptTimeout options = Some tm ->
  callbacks_settle (destructure options) ->
  fst (retry fn options random w) <> Pending.
Proof.
  intros Ht Hs. unfold retry.
  destruct (validate (destructure options)); [discriminate|].
  destruct (aborted (signal (destructure options)) (now w)); [discriminate|].
  destruct (loop fn (destructure options) random (now w)
              (Z.to_nat (retryCount (destructure options) + 1)) 1
              Undefined w) as [o w'] eqn:Hl.
  simpl. intro Ho. subst o.
  apply loop_settles in Hl; [exact Hl| |exact Hs].
  simpl. rewrite Ht. discriminate.
Qed.

(** X14. Without [attemptTimeout] nothing interrupts a running attempt: if the
    operation's first promise never settles the call stays pending with the
    operation called once, even if the signal is aborted later or
    [totalTimeout] elapses. *)
Theorem hung_attempt_is_never_interrupted fn options random w :
  ~ violatesConstraint (destructure options) ->
  o_attemptTimeout options = None ->
  aborted (o_signal options) (now w) = false ->
  fst (fn 1 (now w) (user w)) = Never ->
  exists s,
    retry fn options random w
      = (Pending, mkWorld (now w) s (trace w ++ [EvCall 1])).
Proof.
  intros Hv Ht Ha Hn. apply validate_None_iff in Hv.
  destruct (valid_retryCount _ Hv) as [Hpos _].
  unfold retry. rewrite Hv.
  change (signal (destructure options)) with (o_signal options).
  rewrite Ha.
  destruct (Z.to_nat (retryCount (destructure options) + 1)) as [|k] eqn:Hk;
    [lia|].
  rewrite loop_unfold.
  rewrite first_head_passes by assumption.
  unfold run_attempt.
  change (attemptTimeout (destructure options)) with (o_attemptTimeout options).
  rewrite Ht. unfold call, start. simpl.
  destruct (fn 1 (now w) (user w)) as [p s]. simpl in Hn. subst p.
  exists s. reflexivity.
Qed.

End Settling.

(** ** The flaky operation of the test suite under [retry] *)

Section Flaky.

Context {host : Timers}.

Implicit Types (options : @RetryOptions nat nat) (w : @World nat nat).

Lemma backoffOnly_head options startTime w :
  backoffOnly options -> check_head (destructure options) startTime w = None.
Proof.
  intros [_ [Ht [Hs _]]]. unfold check_head, aborted. simpl.
  rewrite Ht, Hs. reflexivity.
Qed.

Lemma backoffOnly_retry_step options random startTime attempt error w :
  backoffOnly options ->
  instanceof_AbortError error = false ->
  retryCount (destructure options) + 1 - attempt <> 0 ->
  exists t,
    on_failure (destructure options) random startTime attempt error w
      = (Ok tt,
         mkWorld t (user w)
                 (trace w ++ [EvFailed attempt error;
                              EvSleep (delayAfter (destructure options) random
                                                  attempt)])).
Proof.
  intros [_ [Ht [Hs [Hp Ho]]]] Ha Hl.
  rewrite on_failure_retry by assumption.
  rewrite schedule_retry_unfold. cbv zeta.
  unfold consult_retryIf, notify_onRetry, wait_before_retry, check_budget.
  simpl. rewrite Hp, Ho, Ht. unfold ret, bind, emit, sleep, aborted, abortTime.
  simpl. rewrite Hs. unfold at_time, record. simpl.
  rewrite <- app_assoc. eexists. reflexivity.
Qed.

Lemma flaky_attempt (failCount : nat) (value : string) options attempt w :
  backoffOnly options ->
  run_attempt (createFailingFn failCount value) (destructure options)
              attempt w
    = (if (S (user w) <=? failCount)%nat
       then Throw (Other (S (user w)))
       else Ok value,
       mkWorld (now w + 0) (S (user w)) (trace w ++ [EvCall attempt])).
Proof.
  intros [Hat _]. unfold run_attempt.
  change (attemptTimeout (destructure options)) with (o_attemptTimeout options).
  rewrite Hat. unfold call, start, createFailingFn.
  cbn [now user record].
  destruct (S (user w) <=? failCount)%nat; reflexivity.
Qed.

Lemma flaky_loop (failCount : nat) (value : string) options random startTime
    remaining :
  backoffOnly options ->
  forall attempt (lastError : Thrown nat) w,
    Z.of_nat remaining = retryCount (destructure options) + 2 - attempt ->
    (0 < remaining)%nat ->
    let run :=
      loop (createFailingFn failCount value) (destructure options) random
           startTime remaining attempt lastError w in
    ((failCount < user w + remaining)%nat ->
     fst run = Ok value /\
     user (snd run) = Nat.max (S (user w)) (S failCount)) /\
    ((user w + remaining <= failCount)%nat ->
     fst run = Throw (Other (user w + remaining)%nat) /\
     user (snd run) = (user w + remaining)%nat).
Proof.
  intros Hb. induction remaining as [|k IH];
    intros attempt lastError w Hinv Hpos; [lia|].
  cbv zeta. rewrite loop_unfold.
  rewrite (backoffOnly_head _ _ _ Hb).
  rewrite (flaky_attempt _ _ _ _ _ Hb).
  destruct (S (user w) <=? failCount)%nat eqn:Hfail.
  - apply Nat.leb_le in Hfail.
    destruct (Z.eq_dec (retryCount (destructure options) + 1 - attempt) 0)
      as [Hl|Hl].
    + rewrite on_failure_final by assumption.
      assert (k = 0%nat) by lia. subst k.
      split; [lia|]. intros _. cbn [fst snd user record].
      split; [f_equal; f_equal; lia|lia].
    + destruct (backoffOnly_retry_step options random startTime attempt
                  (Other (S (user w)))
                  (mkWorld (now w + 0) (S (user w))
                           (trace w ++ [EvCall attempt]))
                  Hb eq_refl Hl) as [t Hstep].
      rewrite Hstep. cbn [now user trace].
      match goal with
      | |- context [loop ?f ?c ?rnd ?st k ?a ?le ?w1] =>
          specialize (IH a le w1)
      end.
      cbv zeta in IH. cbn [user] in IH.
      destruct IH as [I1 I2]; [lia|lia|].
      split.
      * intro Hlt. destruct I1 as [J1 J2]; [lia|].
        split; [exact J1|]. rewrite J2. lia.
      * intro Hge. destruct I2 as [J1 J2]; [lia|].
        split; [rewrite J1; f_equal; f_equal; lia|]. rewrite J2. lia.
  - apply Nat.leb_gt in Hfail. cbn [fst snd user].
    split; [|lia]. intros _. split; [reflexivity|lia].
Qed.

Lemma iter_S (n m : nat) : Nat.iter n S m = (n + m)%nat.
Proof.
  induction n as [|n IH]; simpl; [reflexivity|rewrite IH; reflexivity].
Qed.

(** X15. An operation that fails on its first [failCount] calls, retried with
    backoff only: when [failCount] does not exceed the retries the call
    returns the value after [failCount + 1] calls of the operation; otherwise
    it is rejected with the failure of call retries + 1, after that many
    calls. *)
Theorem retry_of_flaky_operation
    (failCount retries : nat) (value : string) options random w :
  backoffOnly options ->
  o_retries options = Some (inject_Z (Z.of_nat retries)) ->
  ~ violatesConstraint (destructure options) ->
  user w = 0%nat ->
  let run := retry (createFailingFn failCount value) options random w in
  exists evs,
    trace (snd run) = trace w ++ evs /\
    ((failCount <= retries)%nat ->
     fst run = Ok value /\ invocations evs = S failCount) /\
    ((retries < failCount)%nat ->
     fst run = Throw (Other (S retries)) /\ invocations evs = S retries).
Proof.
  intros Hb Hr Hv Hu. apply validate_None_iff in Hv.
  assert (Hrc : retryCount (destructure options) = Z.of_nat retries).
  { unfold retryCount, destructure. simpl. rewrite Hr. simpl.
    apply Qfloor_Z. }
  cbv zeta. unfold retry. rewrite Hv.
  destruct Hb as [Hat [Htt [Hs [Hp Ho]]]] eqn:Hbeq. clear Hbeq.
  change (signal (destructure options)) with (o_signal options).
  rewrite Hs. cbn [aborted].
  pose proof (flaky_loop failCount value options random (now w)
                (Z.to_nat (retryCount (destructure options) + 1))
                (conj Hat (conj Htt (conj Hs (conj Hp Ho)))) 1 Undefined w)
    as Hl.
  cbv zeta in Hl. rewrite Hu in Hl.
  destruct (loop (createFailingFn failCount value) (destructure options)
              random (now w)
              (Z.to_nat (retryCount (destructure options) + 1)) 1
              Undefined w) as [o w'] eqn:Hrun.
  apply (loop_user _ _ _ _ (fun u : nat => u) S) in Hrun.
  - destruct Hrun as [evs [Htr Hcount]]. rewrite iter_S, Hu in Hcount.
    exists evs. split; [exact Htr|].
    simpl in Hl. unfold invocations. rewrite Hrc in Hl.
    replace (Z.to_nat (Z.of_nat retries + 1)) with (S retries) in Hl by lia.
    destruct Hl as [L1 L2]; [lia|lia|].
    split.
    + intro Hle. destruct L1 as [J1 J2]; [lia|].
      split; [exact J1|]. simpl. lia.
    + intro Hlt. destruct L2 as [J1 J2]; [lia|].
      split; [rewrite J1; reflexivity|]. simpl. lia.
  - intros attempt t s. unfold createFailingFn.
    destruct (S s <=? failCount)%nat; reflexivity.
  - split; intros f Hf; simpl in Hf; congruence.
Qed.

End Flaky.

(** ** Validation messages *)

Section Messages.

Context {E U : Type}.
Implicit Types (c : @Settings E U).

(** X17. The TypeError of [validate] names the first field, in the order
    retries, minTimeout, maxTimeout, factor, attemptTimeout, totalTimeout,
    whose constraint is violated. *)
Theorem validate_reports_first_violation c (e : Thrown E) :
  validate c = Some e ->
  let retries_ok := (0 <= retries c)%Q /\ isIntegral (retries c) in
  let attemptTimeout_ok :=
    forall t, attemptTimeout c = Some t -> (0 < t)%Q in
  (e = TypeError "retries must be a non-negative integer" /\
   ((retries c < 0)%Q \/ ~ isIntegral (retries c))) \/
  (e = TypeError "minTimeout must be positive" /\
   retries_ok /\ (minTimeout c <= 0)%Q) \/
  (e = TypeError "maxTimeout must be positive" /\
   retries_ok /\ (0 < minTimeout c)%Q /\ (maxTimeout c <= 0)%Q) \/
  (e = TypeError "factor must be positive" /\
   retries_ok /\ (0 < minTimeout c)%Q /\ (0 < maxTimeout c)%Q /\
   (factor c <= 0)%Q) \/
  (e = TypeError "attemptTimeout must be positive" /\
   retries_ok /\ (0 < minTimeout c)%Q /\ (0 < maxTimeout c)%Q /\
   (0 < factor c)%Q /\
   exists t, attemptTimeout c = Some t /\ (t <= 0)%Q) \/
  (e = TypeError "totalTimeout must be positive" /\
   retries_ok /\ (0 < minTimeout c)%Q /\ (0 < maxTimeout c)%Q /\
   (0 < factor c)%Q /\ attemptTimeout_ok /\
   exists t, totalTimeout c = Some t /\ (t <= 0)%Q).
Proof.
  intro H. cbv zeta. unfold validate, nonPositive in H.
  destruct (Qltb (retries c) 0) eqn:H1.
  { inversion H. left. split; [reflexivity|]. left.
    apply Qltb_true_iff. exact H1. }
  destruct (Number_isInteger (retries c)) eqn:H2.
  2:{ inversion H. left. split; [reflexivity|]. right. intro Hi.
      apply Number_isInteger_iff in Hi. congruence. }
  simpl in H.
  assert (Hr : (0 <= retries c)%Q /\ isIntegral (retries c)).
  { split; [apply Qltb_false_iff; exact H1
           |apply Number_isInteger_iff; exact H2]. }
  right.
  destruct (Qle_bool (minTimeout c) 0) eqn:H3.
  { inversion H. left. split; [reflexivity|]. split; [exact Hr|].
    apply Qle_bool_iff. exact H3. }
  apply Qle_bool_false_iff in H3. right.
  destruct (Qle_bool (maxTimeout c) 0) eqn:H4.
  { inversion H. left. split; [reflexivity|]. split; [exact Hr|].
    split; [exact H3|]. apply Qle_bool_iff. exact H4. }
  apply Qle_bool_false_iff in H4. right.
  destruct (Qle_bool (factor c) 0) eqn:H5.
  { inversion H. left. split; [reflexivity|]. split; [exact Hr|].
    split; [exact H3|]. split; [exact H4|]. apply Qle_bool_iff. exact H5. }
  apply Qle_bool_false_iff in H5. right.
  destruct (attemptTimeout c) as [a|] eqn:Ha.
  - destruct (Qle_bool a 0) eqn:H6.
    { inversion H. left. split; [reflexivity|]. split; [exact Hr|].
      split; [exact H3|]. split; [exact H4|]. split; [exact H5|].
      exists a. split; [reflexivity|]. apply Qle_bool_iff. exact H6. }
    apply Qle_bool_false_iff in H6. right.
    destruct (totalTimeout c) as [t|] eqn:Ht; [|discriminate].
    destruct (Qle_bool t 0) eqn:H7; [|discriminate].
    inversion H. split; [reflexivity|]. split; [exact Hr|].
    split; [exact H3|]. split; [exact H4|]. split; [exact H5|].
    split.
    + intros t' Ht'. inversion Ht'; subst. exact H6.
    + exists t. split; [reflexivity|]. apply Qle_bool_iff. exact H7.
  - right.
    destruct (totalTimeout c) as [t|] eqn:Ht; [|discriminate].
    destruct (Qle_bool t 0) eqn:H7; [|discriminate].
    inversion H. split; [reflexivity|]. split; [exact Hr|].
    split; [exact H3|]. split; [exact H4|]. split; [exact H5|].
    split.
    + intros t' Ht'. discriminate.
    + exists t. split; [reflexivity|]. apply Qle_bool_iff. exact H7.
Qed.

End Messages.

(** ** The test harness *)





(** ** The run-all script *)

(** X19. The script always runs its three commands, in order, whatever the
    earlier ones did, and exits with code 0 exactly when all three succeeded
    (with code 1 otherwise). *)
Theorem run_all_runs_every_step
    (exec : list string -> string -> bool) (sh : Shell) :
  let h0 := executed sh in
  let h1 := h0 ++ ["node test/run.js"%string] in
  let h2 := h1 ++ ["node sample/app.js"%string] in
  executed (snd (run_all exec sh))
    = h2 ++ ["node benchmark/bench.js"%string] /\
  (fst (run_all exec sh) = 0 <->
   exec h0 "node test/run.js"%string = true /\
   exec h1 "node sample/app.js"%string = true /\
   exec h2 "node benchmark/bench.js"%string = true) /\
  (fst (run_all exec sh) = 0 \/ fst (run_all exec sh) = 1).
Proof.
  cbv zeta. unfold run_all, run, blank. simpl.
  destruct (exec (executed sh) "node test/run.js"%string);
    destruct (exec (executed sh ++ ["node test/run.js"%string])
                   "node sample/app.js"%string);
    destruct (exec ((executed sh ++ ["node test/run.js"%string])
                    ++ ["node sample/app.js"%string])
                   "node benchmark/bench.js"%string);
    simpl; repeat split; auto; try discriminate;
    try (intros [? [? ?]]; discriminate); try (intro; discriminate).
Qed.

(** ** Instances *)

(** An operation that always fails with status 429 under a predicate that
    retries on 429 only: four failures, three calls of the observer. *)
Lemma onRetry_call_count_witness :
  let options := withCallbacks (Some retryOn429) (Some silentObserver) in
  let evs := trace (snd (retry alwaysBusy options noJitter world0)) in
  failedAttempts evs = 4%nat /\
  stoppedAtRetryIf evs = false /\
  onRetryCalls evs = Nat.min (failedAttempts evs) 3.
Proof.
  intros options evs.
  assert (Hevs : evs =
    [EvCall 1; EvFailed 1 (Other 429%nat);
     EvRetryIf (Other 429%nat) (mkContext 1 3 0 10);
     EvOnRetry (Other 429%nat) (mkContext 1 3 0 10); EvSleep 10;
     EvCall 2; EvFailed 2 (Other 429%nat);
     EvRetryIf (Other 429%nat) (mkContext 2 2 10 20);
     EvOnRetry (Other 429%nat) (mkContext 2 2 10 20); EvSleep 20;
     EvCall 3; EvFailed 3 (Other 429%nat);
     EvRetryIf (Other 429%nat) (mkContext 3 1 30 40);
     EvOnRetry (Other 429%nat) (mkContext 3 1 30 40); EvSleep 40;
     EvCall 4; EvFailed 4 (Other 429%nat)])
    by (vm_compute; reflexivity).
  destruct (onRetry_call_count alwaysBusy options noJitter world0
              (fst (retry alwaysBusy options noJitter world0))
              (snd (retry alwaysBusy options noJitter world0)))
    as [evs' [Htr [_ Hexact]]].
  - apply validate_None_iff. reflexivity.
  - vm_compute. reflexivity.
  - change (trace world0 ++ evs') with evs' in Htr. fold evs in Htr.
    subst evs'. clearbody evs. subst evs.
    destruct Hexact as [_ Hacc].
    + discriminate.
    + repeat constructor.
    + split; [reflexivity|]. split; [reflexivity|]. apply Hacc.
      intros error context Hin. simpl in Hin.
      repeat (destruct Hin as [Hin|Hin];
              [inversion Hin; subst; intros t s; eexists; eexists;
               reflexivity|]).
      contradiction.
Defined.

Lemma withTimeout_always_settles_witness :
  let run :=
    withTimeout (call (slowFn 100 "too slow") 1) 20 None world0 in
  fst run <> Pending /\
  now (snd run) <= setTimeout 20 world0 /\
  (forall e, fst run = Throw e ->
     e = new_AbortError \/ e = TimeoutError (AttemptTimedOutAfter 20) \/
     exists d,
       fst (slowFn 100 "too slow" 1 (now world0) (user world0))
         = Rejects d e) /\
  (forall v, fst run = Ok v ->
     exists d,
       fst (slowFn 100 "too slow" 1 (now world0) (user world0))
         = Resolves d v /\ now world0 + d <= setTimeout 20 world0).
Proof.
  intro run.
  apply (withTimeout_always_settles (slowFn 100 "too slow") 1 20 None world0
           (fst run) (snd run)).
  vm_compute. reflexivity.
Defined.

Lemma withTimeout_transparent_witness :
  withTimeout (call (slowFn 10 "fast enough") 1) 100 (Some (AbortedAt 30))
              world0
    = (Ok "fast enough"%string, mkWorld 10 1%nat [EvCall 1]).
Proof.
  apply (withTimeout_transparent (slowFn 10 "fast enough") 1 100
           (Some (AbortedAt 30)) world0
           (Resolves 10 "fast enough"%string) (mkWorld 0 1%nat [EvCall 1]) 10).
  - reflexivity.
  - reflexivity.
  - reflexivity.
  - reflexivity.
  - intros a Ha. inversion Ha; subst. simpl. lia.
Defined.

Lemma attempts_are_numbered_from_one_witness :
  exists evs,
    trace (snd (retry (createFailingFn 2 "ok") (quick 3) noJitter world0))
      = trace world0 ++ evs /\
    attemptsCalled evs = map Z.of_nat (seq 1 (invocations evs)).
Proof.
  apply (attempts_are_numbered_from_one (createFailingFn 2 "ok") (quick 3)
           noJitter world0
           (fst (retry (createFailingFn 2 "ok") (quick 3) noJitter world0))).
  - apply validate_None_iff. reflexivity.
  - vm_compute. reflexivity.
Defined.

Lemma callbacks_receive_the_current_failure_witness :
  let options := withCallbacks (Some retryAll) (Some silentObserver) in
  exists evs,
    trace (snd (retry (createFailingFn 2 "ok") options noJitter world0))
      = trace world0 ++ evs /\
    forall e context,
      In (EvRetryIf e context) evs \/ In (EvOnRetry e context) evs ->
      In (EvFailed (attempt context) e) evs /\
      instanceof_AbortError e = false /\
      1 <= attempt context /\ 1 <= retriesLeft context /\
      (inject_Z (attempt context + retriesLeft context)
         == retries (destructure options) + 1)%Q /\
      nextDelay context
        = calculateDelay (attempt context)
            (minTimeout (destructure options))
            (maxTimeout (destructure options))
            (factor (destructure options))
            (jitter (destructure options)) (noJitter (attempt context)).
Proof.
  intro options.
  apply (callbacks_receive_the_current_failure (createFailingFn 2 "ok")
           options noJitter world0
           (fst (retry (createFailingFn 2 "ok") options noJitter world0))).
  - apply validate_None_iff. reflexivity.
  - vm_compute. reflexivity.
Defined.

Lemma every_retry_waits_its_backoff_witness :
  exists evs,
    trace (snd (retry (createFailingFn 2 "ok") (quick 3) noJitter world0))
      = trace world0 ++ evs /\
    (forall ms,
       In (EvSleep ms) evs ->
       exists failed error,
         In (EvFailed failed error) evs /\
         ms = calculateDelay failed
                (minTimeout (destructure (quick 3)))
                (maxTimeout (destructure (quick 3)))
                (factor (destructure (quick 3)))
                (jitter (destructure (quick 3))) (noJitter failed)) /\
    (delaysStarted evs <= failedAttempts evs)%nat /\
    (invocations evs <= delaysStarted evs + 1)%nat /\
    (forall before n after,
       evs = before ++ EvCall n :: after ->
       (before = [] /\ n = 1) \/
       (exists front error,
          before
            = front ++
              [EvSleep
                 (calculateDelay (n - 1)
                    (minTimeout (destructure (quick 3)))
                    (maxTimeout (destructure (quick 3)))
                    (factor (destructure (quick 3)))
                    (jitter (destructure (quick 3))) (noJitter (n - 1)))] /\
          In (EvFailed (n - 1) error) front)).
Proof.
  apply (every_retry_waits_its_backoff (createFailingFn 2 "ok") (quick 3)
           noJitter world0
           (fst (retry (createFailingFn 2 "ok") (quick 3) noJitter world0))).
  - apply validate_None_iff. reflexivity.
  - vm_compute. reflexivity.
Defined.

Lemma success_comes_from_the_last_call_witness :
  exists evs before,
    trace (snd (retry (createFailingFn 2 "ok") (quick 3) noJitter world0))
      = trace world0 ++ evs /\
    evs = before ++ [EvCall (Z.of_nat (invocations evs))] /\
    invocations evs = (failedAttempts evs + 1)%nat /\
    delaysStarted evs = failedAttempts evs.
Proof.
  apply (success_comes_from_the_last_call (createFailingFn 2 "ok") (quick 3)
           noJitter world0 "ok"%string).
  - apply validate_None_iff. reflexivity.
  - vm_compute. reflexivity.
Defined.

Lemma onRetry_follows_retryIf_witness :
  let options := withCallbacks (Some neverRetry) (Some silentObserver) in
  exists evs,
    trace (snd (retry (createFailingFn 2 "ok") options noJitter world0))
      = trace world0 ++ evs /\
    (retryIfCalls evs <= failedAttempts evs)%nat /\
    (o_retryIf options <> None ->
     (onRetryCalls evs <= retryIfCalls evs)%nat).
Proof.
  intro options.
  apply (onRetry_follows_retryIf (createFailingFn 2 "ok") options noJitter
           world0
           (fst (retry (createFailingFn 2 "ok") options noJitter world0))).
  - apply validate_None_iff. reflexivity.
  - vm_compute. reflexivity.
Defined.

Lemma rejection_without_callbacks_witness :
  exists evs,
    trace (snd (retry (createFailingFn 10 "never") (quick 2) noJitter world0))
      = trace world0 ++ evs /\
    ((exists before,
        failures evs = before ++ [Other 3%nat] /\
        (instanceof_AbortError (Other 3%nat) = true \/
         (inject_Z (Z.of_nat (failedAttempts evs))
            == retries (destructure (quick 2)) + 1)%Q)) \/
     (Other 3%nat = new_AbortError /\ o_signal (quick 2) <> None) \/
     (isTotalTimeout (Other 3%nat) = true /\
      o_totalTimeout (quick 2) <> None)).
Proof.
  apply (rejection_without_callbacks (createFailingFn 10 "never") (quick 2)
           noJitter world0 (Other 3%nat)).
  - apply validate_None_iff. reflexivity.
  - reflexivity.
  - reflexivity.
  - vm_compute. reflexivity.
Defined.

Lemma zero_retries_single_attempt_witness :
  let run := retry (createFailingFn 1 "ok") (quick 0) noJitter world0 in
  exists evs,
    trace (snd run) = trace world0 ++ evs /\
    (invocations evs <= 1)%nat /\
    retryIfCalls evs = 0%nat /\ onRetryCalls evs = 0%nat /\
    delaysStarted evs = 0%nat /\
    (forall error, In error (failures evs) -> fst run = Throw error).
Proof.
  intro run.
  apply (zero_retries_single_attempt (createFailingFn 1 "ok") (quick 0)
           noJitter world0 (fst run) (snd run)).
  - reflexivity.
  - apply validate_None_iff. reflexivity.
  - vm_compute. reflexivity.
Defined.

Lemma retry_settles_under_attemptTimeout_witness :
  fst (retry hangingFn impatient noJitter world0) <> Pending.
Proof.
  apply (retry_settles_under_attemptTimeout hangingFn impatient noJitter
           20 world0).
  - reflexivity.
  - split; intros f Hf; discriminate Hf.
Defined.

Lemma hung_attempt_is_never_interrupted_witness :
  exists s,
    retry hangingFn deadlineAndSignal noJitter world0
      = (Pending, mkWorld (now world0) s (trace world0 ++ [EvCall 1])).
Proof.
  apply (hung_attempt_is_never_interrupted hangingFn deadlineAndSignal
           noJitter world0).
  - apply validate_None_iff. reflexivity.
  - reflexivity.
  - reflexivity.
  - reflexivity.
Defined.

Lemma retry_of_flaky_operation_witness :
  let run := retry (createFailingFn 2 "ok") (quick 3) noJitter world0 in
  exists evs,
    trace (snd run) = trace world0 ++ evs /\
    ((2 <= 3)%nat -> fst run = Ok "ok"%string /\ invocations evs = 3%nat) /\
    ((3 < 2)%nat ->
     fst run = Throw (Other 4%nat) /\ invocations evs = 4%nat).
Proof.
  apply (retry_of_flaky_operation 2 3 "ok" (quick 3) noJitter world0).
  - repeat split.
  - reflexivity.
  - apply validate_None_iff. reflexivity.
  - reflexivity.
Defined.

Lemma validate_reports_first_violation_witness :
  let c := destructure misconfigured in
  let e : Thrown nat := TypeError "factor must be positive" in
  let retries_ok := (0 <= retries c)%Q /\ isIntegral (retries c) in
  let attemptTimeout_ok :=
    forall t, attemptTimeout c = Some t -> (0 < t)%Q in
  (e = TypeError "retries must be a non-negative integer" /\
   ((retries c < 0)%Q \/ ~ isIntegral (retries c))) \/
  (e = TypeError "minTimeout must be positive" /\
   retries_ok /\ (minTimeout c <= 0)%Q) \/
  (e = TypeError "maxTimeout must be positive" /\
   retries_ok /\ (0 < minTimeout c)%Q /\ (maxTimeout c <= 0)%Q) \/
  (e = TypeError "factor must be positive" /\
   retries_ok /\ (0 < minTimeout c)%Q /\ (0 < maxTimeout c)%Q /\
   (factor c <= 0)%Q) \/
  (e = TypeError "attemptTimeout must be positive" /\
   retries_ok /\ (0 < minTimeout c)%Q /\ (0 < maxTimeout c)%Q /\
   (0 < factor c)%Q /\
   exists t, attemptTimeout c = Some t /\ (t <= 0)%Q) \/
  (e = TypeError "totalTimeout must be positive" /\
   retries_ok /\ (0 < minTimeout c)%Q /\ (0 < maxTimeout c)%Q /\
   (0 < factor c)%Q /\ attemptTimeout_ok /\
   exists t, totalTimeout c = Some t /\ (t <= 0)%Q).
Proof.
  apply (validate_reports_first_violation (destructure misconfigured)
           (TypeError "factor must be positive")).
  reflexivity.
Defined.


Lemma run_all_runs_every_step_witness :
  executed (snd (run_all sampleBroken (mkShell [] [])))
    = ["node test/run.js"; "node sample/app.js";
       "node benchmark/bench.js"]%string /\
  fst (run_all sampleBroken (mkShell [] [])) = 1.
Proof.
  destruct (run_all_runs_every_step sampleBroken (mkShell [] []))
    as [Hrun [Hzero Hcode]].
  split; [exact Hrun|].
  destruct Hcode as [H0|H1]; [|exact H1].
  apply Hzero in H0. destruct H0 as [_ [H _]]. discriminate H.
Defined.
